(** * The agent reasoning loop of yt-agentic-rag, embedded in Rocq

    A shallow embedding of [app/agents/orchestrator.py] (the class
    [AgentService]) and of the tool response helpers of
    [app/agents/tools/base.py] and [app/agents/tools/email_tool.py].

    Python [str] is [string], Python lists are [list], the two Python
    sets of the orchestrator are [gset string].  The external
    collaborators (embedding service, vector search, LLM clients, tool
    registry, [json], the clock) are fields of a record of oracles over
    an explicit world state; a Python exception is a value of [Exn]
    threaded through a state-and-exception monad.  Calls to [logger]
    have no effect on any returned value and are left out. *)

From stdpp Require Import base option list strings gmap sets.
From Stdlib Require Import ZArith Lia Ascii DecimalString.

#[local] Set Warnings "-register-all,-clear-no-such-hyp".

Local Open Scope string_scope.
Local Open Scope nat_scope.
Local Open Scope list_scope.

(** ** Python string primitives used by the orchestrator *)

Module PyStr.

(** [c in s] for a one-character [c]. *)
Fixpoint contains (c : ascii) (s : string) : bool :=
  match s with
  | EmptyString => false
  | String d s' => if Ascii.eqb d c then true else contains c s'
  end.

(** [s.split(sep)] for a one-character separator: never the empty list. *)
Fixpoint split (sep : ascii) (s : string) : list string :=
  match s with
  | EmptyString => [EmptyString]
  | String d s' =>
      if Ascii.eqb d sep then EmptyString :: split sep s'
      else match split sep s' with
           | h :: t => String d h :: t
           | [] => [String d EmptyString]
           end
  end.

(** [sep.join(parts)]. *)
Fixpoint join (sep : string) (parts : list string) : string :=
  match parts with
  | [] => EmptyString
  | [p] => p
  | p :: rest => p +:+ sep +:+ join sep rest
  end.

(** Truthiness of a [str]: the empty string is falsy. *)
Definition truthy (s : string) : bool :=
  match s with EmptyString => false | String _ _ => true end.

(** [x or d] where [x] is a [str] or [None]. *)
Definition or_else (x : option string) (d : string) : string :=
  match x with
  | Some s => if truthy s then s else d
  | None => d
  end.

(** The longest prefix of [s] that holds no [c], and what follows it. *)
Fixpoint span_not (c : ascii) (s : string) : string * string :=
  match s with
  | EmptyString => (EmptyString, EmptyString)
  | String d s' =>
      if Ascii.eqb d c then (EmptyString, s)
      else let '(pre, post) := span_not c s' in (String d pre, post)
  end.

End PyStr.

(** ** Data model *)

(** A row returned by the vector search: [{chunk_id, text, source,
    similarity}] (docstring of [_get_rag_context]).  All four keys are
    present, so the defaults of [.get('chunk_id', ...)] and
    [.get('text', '')] are never taken and [block['chunk_id']] never
    fails.  The similarity score is a float that the orchestrator never
    inspects; it is carried as a scaled integer. *)
Record ContextBlock := {
  chunk_id : string;
  text : string;
  source : string;
  similarity : Z
}.

(** ** Context assembler: the deduplication walk of [_get_rag_context] *)

(** [chunk_id.split('#')[0] if '#' in chunk_id else chunk_id] *)
Definition base_id (chunk_id : string) : string :=
  if PyStr.contains "#" chunk_id
  then hd EmptyString (PyStr.split "#" chunk_id)
  else chunk_id.

(** The body of [for result in search_results], with the two locals
    [seen_prefixes] and [context_blocks] passed along; the [break] ends
    the walk once four blocks are held. *)
Fixpoint dedup_walk (search_results : list ContextBlock)
    (seen_prefixes : gset string) (context_blocks : list ContextBlock)
    : list ContextBlock :=
  match search_results with
  | [] => context_blocks
  | result :: rest =>
      let base := base_id (chunk_id result) in
      let '(context_blocks, seen_prefixes) :=
        if decide (base ∈ seen_prefixes)
        then (context_blocks, seen_prefixes)
        else (context_blocks ++ [result], seen_prefixes ∪ {[ base ]}) in
      if (4 <=? length context_blocks)%nat
      then context_blocks
      else dedup_walk rest seen_prefixes context_blocks
  end.

(** Lines 225-242: the walk from the empty set and the empty list. *)
Definition dedup_context (search_results : list ContextBlock)
    : list ContextBlock :=
  dedup_walk search_results ∅ [].

(** ** Citation extractor *)

(** [re.findall(r'\[([^\]]+)\]', text)].

    [match_citation_at s] is the attempt to match the pattern at the
    first character of [s]: a ['['], then the greedy run of characters
    other than [']'] (which must not be empty), then a [']'].  Giving
    back characters of the run cannot help, since the character that
    would have to match [\]] is then inside the run.  The result is the
    captured group and the text after the match. *)
Definition match_citation_at (s : string) : option (string * string) :=
  match s with
  | String "[" rest =>
      match PyStr.span_not "]" rest with
      | (String c tok, String "]" after) => Some (String c tok, after)
      | _ => None
      end
  | _ => None
  end.

(** The scan of [findall]: leftmost match first, then on from the end
    of that match; where no match starts, one character further.  Every
    step consumes at least one character, so [fuel] above the length of
    [s] is never used up (lemma [findall_from_fuel]). *)
Fixpoint findall_from (fuel : nat) (s : string) : list string :=
  match fuel with
  | O => []
  | S fuel =>
      match match_citation_at s with
      | Some (tok, after) => tok :: findall_from fuel after
      | None =>
          match s with
          | EmptyString => []
          | String _ s' => findall_from fuel s'
          end
      end
  end.

Definition findall_citations (text : string) : list string :=
  findall_from (S (String.length text)) text.

(** The loop "remove duplicates while preserving order". *)
Fixpoint unique_loop (valid_citations unique_citations : list string)
    : list string :=
  match valid_citations with
  | [] => unique_citations
  | cite :: rest =>
      unique_loop rest
        (if decide (cite ∈ unique_citations)
         then unique_citations
         else unique_citations ++ [cite])
  end.

(** [_extract_citations(text, context_blocks)] *)
Definition _extract_citations (text : string)
    (context_blocks : list ContextBlock) : list string :=
  let found_citations := findall_citations text in
  let valid_chunk_ids : gset string :=
    list_to_set (chunk_id <$> context_blocks) in
  let valid_citations :=
    filter (λ cite, cite ∈ valid_chunk_ids) found_citations in
  unique_loop valid_citations [].

(** ** Values, exceptions, messages and tool records *)

(** A JSON-like Python value: what [json.loads] yields and [json.dumps]
    accepts, and what a tool returns under ["result"]. *)
Inductive PyVal :=
  | PNone
  | PBool (b : bool)
  | PInt (z : Z)
  | PStr (s : string)
  | PList (l : list PyVal)
  | PDict (d : list (string * PyVal)).

Definition PyDict := list (string * PyVal).

(** [type(v).__name__] *)
Definition type_name (v : PyVal) : string :=
  match v with
  | PNone => "NoneType"
  | PBool _ => "bool"
  | PInt _ => "int"
  | PStr _ => "str"
  | PList _ => "list"
  | PDict _ => "dict"
  end.

(** A raised [Exception]: its class name and [str(e)]. *)
Record Exn := { exn_type : string; exn_str : string }.

(** [{"name": ..., "arguments": ...}]: the arguments are still a JSON text. *)
Record FunctionCall := { fn_name : string; fn_arguments : string }.

(** A tool call as both adapters return it: [{"id", "function"}]. *)
Record ToolCall := { tc_id : string; tc_function : FunctionCall }.

(** A tool call as written into an assistant message:
    [{"id", "type", "function"}]. *)
Record WireToolCall := {
  wtc_id : string;
  wtc_type : string;
  wtc_function : FunctionCall
}.

(** A message of the conversation.  [content = None] is Python's [None];
    [tool_calls] and [tool_call_id] are [None] where the dict has no such
    key. *)
Record Message := {
  role : string;
  content : option string;
  tool_calls : option (list WireToolCall);
  tool_call_id : option string
}.

(** An entry of [chat_history]: [{"role", "content"}], both keys present
    ([ChatMessage] of schemas/requests.py), so the defaults of
    [msg.get("role", "user")] and [msg.get("content", "")] are never
    taken. *)
Record ChatMessage := { chat_role : string; chat_content : string }.

(** What [_call_llm_with_tools] returns: [{"content", "tool_calls"}]. *)
Record LLMResponse := {
  resp_content : option string;
  resp_tool_calls : option (list ToolCall)
}.

(** An entry of [tool_calls_made]. *)
Record ToolInvocation := {
  tool_name : string;
  arguments : PyVal;
  call_id : string
}.

(** What a tool (and the registry) returns: [{"success", "result",
    "error"}] (base.py, [BaseTool.execute]). *)
Record ToolResponse := {
  success : bool;
  result : option PyDict;
  error : option string
}.

(** An entry of [tool_results]: [{"call_id", "tool_name", **result}]. *)
Record ToolOutcome := {
  out_call_id : string;
  out_tool_name : string;
  out_success : bool;
  out_result : option PyDict;
  out_error : option string
}.

(** The ["debug"] mapping; [dbg_error = None] where the key is absent. *)
Record Debug := {
  rag_context_used : bool;
  rag_chunk_ids : list string;
  tools_called : list string;
  iterations : Z;
  dbg_error : option string;
  latency_ms : Z
}.

(** The dict returned by [process_query]. *)
Record AgentResult := {
  res_text : string;
  res_tool_calls : list ToolInvocation;
  res_tool_results : list ToolOutcome;
  res_citations : list string;
  res_debug : Debug
}.

(** An entry of [TOOL_DEFINITIONS] (tool_schemas.py):
    [{"type": "function", "function": {"name", "description",
    "parameters"}}]. *)
Record ToolDefinition := {
  td_type : string;
  td_name : string;
  td_description : string;
  td_parameters : PyVal
}.

(** The same entry in Anthropic's format. *)
Record AnthropicTool := {
  at_name : string;
  at_description : string;
  at_input_schema : PyVal
}.

(** [response.choices[i].message] of the OpenAI client. *)
Record OpenAIMessage := {
  oa_content : option string;
  oa_tool_calls : option (list ToolCall)
}.

(** An element of [response.content] of the Anthropic client, by its
    [type]: ["text"], ["tool_use"], or anything else. *)
Inductive AnthropicBlock :=
  | TextBlock (text : string)
  | ToolUseBlock (id name : string) (input : PyVal)
  | OtherBlock (type : string).

(** [datetime.now()]: its [strftime("%Y-%m-%d")] and its [year]. *)
Record DateTime := { dt_ymd : string; dt_year : Z }.

(** The fields of [settings] that the orchestrator reads, and the tool
    catalog it imports. *)
Record Settings := {
  ai_provider : string;
  openai_chat_model : string;
  anthropic_chat_model : string;
  google_calendar_email : string;
  TOOL_DEFINITIONS : list ToolDefinition
}.

(** [self] after [__init__]. *)
Record AgentService := { provider : string; model : string }.

(** ** The external collaborators

    Each call that leaves the orchestrator is a function of an explicit
    world state [W]; it returns a value or a raised exception, and the
    next world.  [time_time] reads the clock in milliseconds.  Fixed
    keyword arguments of the two client calls ([tool_choice],
    [temperature], [max_tokens]) are part of the oracle.
    [openai_create] returns the messages of [response.choices]. *)
Record Oracles (W : Type) := {
  embed_query : string → W → (Exn + list Z) * W;
  vector_search : list Z → Z → W → (Exn + list ContextBlock) * W;
  openai_create :
    string → list Message → list ToolDefinition → W
    → (Exn + list OpenAIMessage) * W;
  anthropic_create :
    string → option string → list Message → list AnthropicTool → W
    → (Exn + list AnthropicBlock) * W;
  execute_tool : string → PyDict → W → (Exn + ToolResponse) * W;
  json_loads : string → Exn + PyVal;
  json_dumps : PyVal → string;
  time_time : W → Z * W;
  datetime_now : W → DateTime * W
}.

Arguments embed_query {W}.
Arguments vector_search {W}.
Arguments openai_create {W}.
Arguments anthropic_create {W}.
Arguments execute_tool {W}.
Arguments json_loads {W}.
Arguments json_dumps {W}.
Arguments time_time {W}.
Arguments datetime_now {W}.

(** ** Prompt builder: [_build_initial_messages] *)

Definition nl : string := String (ascii_of_nat 10) EmptyString.
Definition dquote : string := String (ascii_of_nat 34) EmptyString.

(** [f"{n}"] for an [int]. *)
Definition str_of_int (n : Z) : string :=
  NilZero.string_of_int (Z.to_int n).

(** The literal text of the system prompt, cut at its placeholders. *)
Definition prompt_part0 : string :=
  PyStr.join nl [
    "You are an intelligent AI assistant with access to both a knowledge base and action tools.";
    "";
    "## IMPORTANT: Current Date Information";
    "Today's date is: " ].

Definition prompt_part1 : string :=
  PyStr.join nl [
    "";
    "Current year is: " ].

Definition prompt_part2 : string :=
  PyStr.join nl [
    "";
    "When scheduling events, ALWAYS use the current year (" ].

Definition prompt_part3 : string :=
  PyStr.join nl [
    ") or future dates. Never use past dates.";
    "";
    "## Your Capabilities:";
    "";
    "1. **Knowledge Base (RAG)**: You have access to retrieved context from our database. Use it to answer questions about policies, procedures, scheduling rules, and other information.";
    "";
    "2. **Tools**: You can take real actions:";
    "   - `create_calendar_event`: Schedule meetings on Google Calendar";
    "   - `send_email`: Send emails via Gmail";
    "";
    "## Retrieved Context from Knowledge Base:";
    "" ].

Definition prompt_part4 : string :=
  PyStr.join nl [
    "";
    "";
    "## Instructions:";
    "";
    "1. **For informational questions** (about policies, returns, shipping, scheduling rules, etc.):";
    "   - Answer using the retrieved context above";
    "   - Include citations in format [chunk_id] when referencing information";
    "   - If context doesn't contain relevant info, say so";
    "";
    "2. **For action requests** (schedule meeting, send email, etc.):";
    "   - Use the appropriate tool";
    "   - If RAG context contains relevant info (e.g., default meeting duration), USE IT";
    "   - If missing required info (date, time, email), ASK the user";
    "   - ALWAYS use the current year (" ].

Definition prompt_part5 : string :=
  PyStr.join nl [
    ") for dates";
    "";
    "3. **After executing a tool**:";
    "   - Confirm the action with relevant details";
    "   - Include any important information (event link, meeting time, etc.)";
    "";
    "## Important Guidelines:";
    "- Always check if RAG context is relevant before using it";
    "- Include citations [chunk_id] when referencing knowledge base information";
    ("- For scheduling: Check context for default durations (e.g., " +:+ dquote +:+ "standard consultation = 30 minutes" +:+ dquote +:+ ")");
    "- Be concise, professional, and helpful";
    "- Corporate email for sending: " ].

Definition no_context_marker : string :=
  "No relevant context found in knowledge base.".

(** [f"[{chunk_id}] {text}"] for each block. *)
Definition context_parts (rag_context : list ContextBlock) : list string :=
  (λ block, "[" +:+ chunk_id block +:+ "] " +:+ text block) <$> rag_context.

(** [context_str]: the parts joined by a blank line, or the marker when
    there is no part. *)
Definition context_str (rag_context : list ContextBlock) : string :=
  match context_parts rag_context with
  | [] => no_context_marker
  | parts => PyStr.join (nl +:+ nl) parts
  end.

Definition system_prompt (current_date : string) (current_year : Z)
    (context_str : string) (corporate_email : string) : string :=
  prompt_part0 +:+ current_date
  +:+ prompt_part1 +:+ str_of_int current_year
  +:+ prompt_part2 +:+ str_of_int current_year
  +:+ prompt_part3 +:+ context_str
  +:+ prompt_part4 +:+ str_of_int current_year
  +:+ prompt_part5 +:+ corporate_email.

Definition plain_message (r : string) (c : string) : Message :=
  {| role := r; content := Some c; tool_calls := None; tool_call_id := None |}.

(** The history loop; [if chat_history:] skips both [None] and [[]]. *)
Definition history_messages (chat_history : option (list ChatMessage))
    : list Message :=
  match chat_history with
  | Some history => (λ msg, plain_message (chat_role msg) (chat_content msg)) <$> history
  | None => []
  end.

(** The message list for given readings of the clock. *)
Definition build_messages (settings : Settings)
    (current_date : string) (current_year : Z) (query : string)
    (rag_context : list ContextBlock)
    (chat_history : option (list ChatMessage)) : list Message :=
  let prompt :=
    system_prompt current_date current_year (context_str rag_context)
      (google_calendar_email settings) in
  [plain_message "system" prompt]
  ++ history_messages chat_history
  ++ [plain_message "user" query].

(** ** The state-and-exception monad of one run

    [tool_calls_made] and [tool_results] are created before the [try]
    and appended to in place, so they outlive a raised exception: the
    state is returned on both outcomes.  [calling_entered] is a ghost
    counter of the entries into [_call_llm_with_tools]; no code reads
    it. *)
Record RunState (W : Type) := {
  world : W;
  tool_calls_made : list ToolInvocation;
  tool_results : list ToolOutcome;
  calling_entered : nat
}.

Arguments world {W}.
Arguments tool_calls_made {W}.
Arguments tool_results {W}.
Arguments calling_entered {W}.

Definition set_world {W} (st : RunState W) (w : W) : RunState W :=
  {| world := w; tool_calls_made := tool_calls_made st;
     tool_results := tool_results st;
     calling_entered := calling_entered st |}.

Definition M (W A : Type) : Type := RunState W → (Exn + A) * RunState W.

Definition ret {W A} (a : A) : M W A := λ st, (inr a, st).

Definition raise {W A} (e : Exn) : M W A := λ st, (inl e, st).

Definition bind {W A B} (m : M W A) (k : A → M W B) : M W B :=
  λ st, match m st with
        | (inr a, st') => k a st'
        | (inl e, st') => (inl e, st')
        end.

Declare Scope run_scope.
Delimit Scope run_scope with run.
Notation "x <- m ;; k" := (bind m (λ x, k))
  (at level 100, m at next level, right associativity) : run_scope.
Notation "m ;;; k" := (bind m (λ _, k))
  (at level 100, right associativity) : run_scope.

(** A call to the outside world that may raise. *)
Definition call {W A} (f : W → (Exn + A) * W) : M W A :=
  λ st, let '(r, w) := f (world st) in (r, set_world st w).

(** A call to the outside world that cannot raise. *)
Definition read {W A} (f : W → A * W) : M W A :=
  call (λ w, let '(a, w') := f w in (inr a, w')).

(** A pure step that may raise. *)
Definition pure_or_raise {W A} (r : Exn + A) : M W A := λ st, (r, st).

(** [tool_calls_made.append(inv)] *)
Definition record_call {W} (inv : ToolInvocation) : M W unit :=
  λ st, (inr (), {| world := world st;
                    tool_calls_made := tool_calls_made st ++ [inv];
                    tool_results := tool_results st;
                    calling_entered := calling_entered st |}).

(** [tool_results.append(out)] *)
Definition record_result {W} (out : ToolOutcome) : M W unit :=
  λ st, (inr (), {| world := world st;
                    tool_calls_made := tool_calls_made st;
                    tool_results := tool_results st ++ [out];
                    calling_entered := calling_entered st |}).

(** Ghost step: one more entry into the CALLING state. *)
Definition enter_calling {W} : M W unit :=
  λ st, (inr (), {| world := world st;
                    tool_calls_made := tool_calls_made st;
                    tool_results := tool_results st;
                    calling_entered := S (calling_entered st) |}).

(** ** Provider adapters *)

(** [AgentService.__init__] *)
Definition init_service (settings : Settings) : Exn + AgentService :=
  if decide (ai_provider settings = "openai")
  then inr {| provider := ai_provider settings;
              model := openai_chat_model settings |}
  else if decide (ai_provider settings = "anthropic")
  then inr {| provider := ai_provider settings;
              model := anthropic_chat_model settings |}
  else inl {| exn_type := "ValueError";
              exn_str := "Unsupported AI provider: " +:+ ai_provider settings |}.

(** The result dict of [_call_openai] from [response.choices[0].message]:
    [tool_calls] is the converted list when [message.tool_calls] is
    truthy and [None] otherwise. *)
Definition openai_result (message : OpenAIMessage) : LLMResponse :=
  {| resp_content := oa_content message;
     resp_tool_calls :=
       match oa_tool_calls message with
       | Some (tc :: tcs) =>
           Some ((λ tc, {| tc_id := tc_id tc;
                           tc_function :=
                             {| fn_name := fn_name (tc_function tc);
                                fn_arguments := fn_arguments (tc_function tc) |} |})
                 <$> (tc :: tcs))
       | _ => None
       end |}.

(** The loop of [_call_anthropic] that takes the system message out:
    the last system content wins, the other messages keep their order. *)
Fixpoint split_system (messages : list Message)
    (system_content : option string) (user_messages : list Message)
    : option string * list Message :=
  match messages with
  | [] => (system_content, user_messages)
  | msg :: rest =>
      if decide (role msg = "system")
      then split_system rest (content msg) user_messages
      else split_system rest system_content (user_messages ++ [msg])
  end.

Definition anthropic_tools (defs : list ToolDefinition) : list AnthropicTool :=
  (λ t, {| at_name := td_name t;
           at_description := td_description t;
           at_input_schema := td_parameters t |}) <$> defs.

(** The loop over [response.content] (lines 439-452), with the locals
    [tool_calls] and [content] passed along. *)
Fixpoint scan_blocks (dumps : PyVal → string) (blocks : list AnthropicBlock)
    (tool_calls : list ToolCall) (content : string)
    : list ToolCall * string :=
  match blocks with
  | [] => (tool_calls, content)
  | TextBlock text :: rest => scan_blocks dumps rest tool_calls text
  | ToolUseBlock id name input :: rest =>
      scan_blocks dumps rest
        (tool_calls ++ [{| tc_id := id;
                           tc_function := {| fn_name := name;
                                             fn_arguments := dumps input |} |}])
        content
  | OtherBlock _ :: rest => scan_blocks dumps rest tool_calls content
  end.

(** Lines 438-457: the result dict built from [response.content]. *)
Definition anthropic_result (dumps : PyVal → string)
    (blocks : list AnthropicBlock) : LLMResponse :=
  let '(tool_calls, content) := scan_blocks dumps blocks [] EmptyString in
  {| resp_content := Some content;
     resp_tool_calls :=
       match tool_calls with
       | [] => None
       | _ :: _ => Some tool_calls
       end |}.

Section Agent.

Context {W : Type}.
Variable ext : Oracles W.
Variable settings : Settings.
Variable self : AgentService.

Local Open Scope run_scope.

(** [_call_openai] *)
Definition _call_openai (messages : list Message) : M W LLMResponse :=
  choices <- call (openai_create ext (model self) messages
                     (TOOL_DEFINITIONS settings)) ;;
  match choices with
  | message :: _ => ret (openai_result message)
  | [] => raise {| exn_type := "IndexError";
                   exn_str := "list index out of range" |}
  end.

(** [_call_anthropic] *)
Definition _call_anthropic (messages : list Message) : M W LLMResponse :=
  let '(system_content, user_messages) :=
    split_system messages (Some EmptyString) [] in
  blocks <- call (anthropic_create ext (model self) system_content
                    user_messages
                    (anthropic_tools (TOOL_DEFINITIONS settings))) ;;
  ret (anthropic_result (json_dumps ext) blocks).

(** [_call_llm_with_tools]: one entry into the CALLING state. *)
Definition _call_llm_with_tools (messages : list Message)
    : M W LLMResponse :=
  enter_calling ;;;
  if decide (provider self = "openai") then _call_openai messages
  else if decide (provider self = "anthropic") then _call_anthropic messages
  else raise {| exn_type := "ValueError";
                exn_str := "Unsupported provider: " +:+ provider self |}.

(** ** Context assembler: [_get_rag_context]

    Every exception of the [try] is caught and turned into [[]]. *)
Definition _get_rag_context (query : string) (top_k : Z)
    : W → list ContextBlock * W :=
  λ w, match embed_query ext query w with
       | (inl _, w1) => ([], w1)
       | (inr query_embedding, w1) =>
           match vector_search ext query_embedding top_k w1 with
           | (inl _, w2) => ([], w2)
           | (inr search_results, w2) => (dedup_context search_results, w2)
           end
       end.

(** [_build_initial_messages]: the two readings of [datetime.now()],
    then the message list. *)
Definition _build_initial_messages (query : string)
    (rag_context : list ContextBlock)
    (chat_history : option (list ChatMessage)) : W → list Message * W :=
  λ w, let '(d1, w1) := datetime_now ext w in
       let '(d2, w2) := datetime_now ext w1 in
       (build_messages settings (dt_ymd d1) (dt_year d2) query
          rag_context chat_history, w2).

(** ** The agent loop *)

(** [await tool_registry.execute_tool(tool_name, **tool_args)]: the
    unpacking [**tool_args] raises [TypeError] unless [tool_args] is a
    mapping, before the registry is entered.  (The wording of the
    message is the interpreter's.) *)
Definition dispatch_tool (tool_name : string) (tool_args : PyVal)
    : M W ToolResponse :=
  match tool_args with
  | PDict kwargs => call (execute_tool ext tool_name kwargs)
  | _ => raise {| exn_type := "TypeError";
                  exn_str := "execute_tool() argument after ** must be a mapping, not "
                             +:+ type_name tool_args |}
  end.

(** The dict [result] as [json.dumps] sees it. *)
Definition response_value (r : ToolResponse) : PyVal :=
  PDict [("success", PBool (success r));
         ("result", match result r with Some d => PDict d | None => PNone end);
         ("error", match error r with Some s => PStr s | None => PNone end)].

Definition assistant_message (tool_call : ToolCall) : Message :=
  {| role := "assistant";
     content := None;
     tool_calls := Some [{| wtc_id := tc_id tool_call;
                            wtc_type := "function";
                            wtc_function := tc_function tool_call |}];
     tool_call_id := None |}.

Definition tool_message (tool_call : ToolCall) (r : ToolResponse) : Message :=
  {| role := "tool";
     content := Some (json_dumps ext (response_value r));
     tool_calls := None;
     tool_call_id := Some (tc_id tool_call) |}.

(** [for tool_call in response['tool_calls']] (lines 120-159); the
    list [messages] is passed along and returned. *)
Fixpoint run_tool_calls (calls : list ToolCall) (messages : list Message)
    : M W (list Message) :=
  match calls with
  | [] => ret messages
  | tool_call :: rest =>
      let name := fn_name (tc_function tool_call) in
      tool_args <- pure_or_raise
                     (json_loads ext (fn_arguments (tc_function tool_call))) ;;
      record_call {| tool_name := name;
                     arguments := tool_args;
                     call_id := tc_id tool_call |} ;;;
      r <- dispatch_tool name tool_args ;;
      record_result {| out_call_id := tc_id tool_call;
                       out_tool_name := name;
                       out_success := success r;
                       out_result := result r;
                       out_error := error r |} ;;;
      run_tool_calls rest
        (messages ++ [assistant_message tool_call; tool_message tool_call r])
  end.

(** [while iteration < max_iterations] (lines 110-163).  Returns the
    locals [iteration] and [final_response] as they stand when the
    loop is left.  Each round adds one to [iteration], so a [fuel] of
    [max_iterations - iteration] rounds is never used up before the
    guard fails (lemma [agent_loop_fuel]). *)
Fixpoint agent_loop (fuel : nat) (max_iterations iteration : Z)
    (messages : list Message) : M W (Z * option string) :=
  match fuel with
  | O => ret (iteration, None)
  | S fuel =>
      if (iteration <? max_iterations)%Z then
        let iteration := (iteration + 1)%Z in
        response <- _call_llm_with_tools messages ;;
        match resp_tool_calls response with
        | Some (tc :: tcs) =>
            messages <- run_tool_calls (tc :: tcs) messages ;;
            agent_loop fuel max_iterations iteration messages
        | _ => ret (iteration, resp_content response)
        end
      else ret (iteration, None)
  end.

Definition get_state : M W (RunState W) := λ st, (inr st, st).

Definition fallback_text : string := "I processed your request.".

Definition error_prefix : string :=
  "I encountered an error processing your request: ".

(** The dict returned at the end of the [try] (lines 170-182). *)
Definition success_result (rag_context : list ContextBlock)
    (iteration : Z) (final_response : option string)
    (citations : list string) (st : RunState W) (start_time now : Z)
    : AgentResult :=
  {| res_text := PyStr.or_else final_response fallback_text;
     res_tool_calls := tool_calls_made st;
     res_tool_results := tool_results st;
     res_citations := citations;
     res_debug :=
       {| rag_context_used := bool_decide (0 < length rag_context);
          rag_chunk_ids := chunk_id <$> rag_context;
          tools_called := tool_name <$> tool_calls_made st;
          iterations := iteration;
          dbg_error := None;
          latency_ms := (now - start_time)%Z |} |}.

(** The body of the [try] (lines 99-182). *)
Definition try_body (query : string)
    (chat_history : option (list ChatMessage)) (top_k max_iterations : Z)
    (start_time : Z) : M W AgentResult :=
  rag_context <- read (_get_rag_context query top_k) ;;
  messages <- read (_build_initial_messages query rag_context chat_history) ;;
  loop_exit <- agent_loop (Z.to_nat max_iterations) max_iterations 0 messages ;;
  let '(iteration, final_response) := loop_exit in
  let citations :=
    _extract_citations (PyStr.or_else final_response EmptyString) rag_context in
  now <- read (time_time ext) ;;
  st <- get_state ;;
  ret (success_result rag_context iteration final_response citations st
         start_time now).

(** The [except Exception as e] handler (lines 184-200). *)
Definition error_result (e : Exn) (st : RunState W) (start_time now : Z)
    : AgentResult :=
  {| res_text := error_prefix +:+ exn_str e;
     res_tool_calls := tool_calls_made st;
     res_tool_results := tool_results st;
     res_citations := [];
     res_debug :=
       {| rag_context_used := false;
          rag_chunk_ids := [];
          tools_called := tool_name <$> tool_calls_made st;
          iterations := 0;
          dbg_error := Some (exn_str e);
          latency_ms := (now - start_time)%Z |} |}.

(** [process_query], returning with the result the final state of the
    run (the world after it, and the ghost counter).  [user_id] is
    accepted and never read. *)
Definition process_query_run (query : string)
    (chat_history : option (list ChatMessage)) (user_id : option string)
    (top_k max_iterations : Z) (w : W) : AgentResult * RunState W :=
  let '(start_time, w0) := time_time ext w in
  let st0 := {| world := w0; tool_calls_made := [];
                tool_results := []; calling_entered := 0 |} in
  match try_body query chat_history top_k max_iterations start_time st0 with
  | (inr res, st) => (res, st)
  | (inl e, st) =>
      let '(now, w1) := time_time ext (world st) in
      (error_result e st start_time now, set_world st w1)
  end.

(** The defaults of [top_k] and [max_iterations]. *)
Definition default_top_k : Z := 6.
Definition default_max_iterations : Z := 5.

Definition process_query (query : string)
    (chat_history : option (list ChatMessage)) (user_id : option string)
    (top_k max_iterations : Z) (w : W) : AgentResult * W :=
  let '(res, st) :=
    process_query_run query chat_history user_id top_k max_iterations w in
  (res, world st).

End Agent.

(** ** Tool responses: [app/agents/tools/base.py] *)

Module BaseTool.

(** [param not in provided or provided[param] is None] *)
Definition is_missing (provided : gmap string PyVal) (param : string)
    : bool :=
  match provided !! param with
  | None => true
  | Some PNone => true
  | Some _ => false
  end.

(** [validate_params]: the required names that are absent from
    [provided] or bound to [None]. *)
Definition validate_params (required : list string)
    (provided : gmap string PyVal) : bool * list string :=
  let missing :=
    filter (λ param, is_missing provided param = true) required in
  match missing with
  | [] => (true, [])
  | _ :: _ => (false, missing)
  end.

Definition _success_response (result : PyDict) : ToolResponse :=
  {| success := true; result := Some result; error := None |}.

Definition _error_response (error : string) : ToolResponse :=
  {| success := false; result := None; error := Some error |}.

End BaseTool.

(** ** The email tool: [app/agents/tools/email_tool.py] *)

Module EmailTool.

Import BaseTool.

Definition name : string := "send_email".
Definition description : string := "Send an email via Gmail".

(** How the body of the [try] in [execute] ends: with one of the three
    handled classes of exception (lazy imports, [get_settings],
    [_get_service], building and sending the message), or with the
    [sent_message] the Gmail client returned. *)
Inductive SendOutcome :=
  | RaisedImportError (e : Exn)
  | RaisedHttpError (e : Exn)
  | RaisedException (e : Exn)
  | Sent (sent_message : gmap string PyVal).

(** A parameter that is a [str] or [None]. *)
Definition arg (x : option string) : PyVal :=
  match x with Some s => PStr s | None => PNone end.

(** [d.get(key, default)] *)
Definition dict_get (d : gmap string PyVal) (key : string)
    (default : PyVal) : PyVal :=
  match d !! key with Some v => v | None => default end.

Section Execute.

Context {G : Type}.
(** Sending [to], [subject], [body] through the Gmail service. *)
Variable gmail_send : PyVal → PyVal → PyVal → G → SendOutcome * G.
Variable corporate_email : string.

(** [EmailTool.execute(to, subject, body, **kwargs)] *)
Definition execute (to subject body : option string) (kwargs : PyDict)
    (g : G) : ToolResponse * G :=
  let provided : gmap string PyVal :=
    <["body" := arg body]> (<["subject" := arg subject]>
      (<["to" := arg to]> ∅)) in
  let '(is_valid, missing) :=
    validate_params ["to"; "subject"; "body"] provided in
  if negb is_valid
  then (_error_response
          ("Missing required parameters: " +:+ PyStr.join ", " missing), g)
  else
    match gmail_send (arg to) (arg subject) (arg body) g with
    | (Sent sent_message, g') =>
        (_success_response
           [("message_id", dict_get sent_message "id" PNone);
            ("thread_id", dict_get sent_message "threadId" PNone);
            ("to", arg to);
            ("subject", arg subject);
            ("from", PStr corporate_email);
            ("labels", dict_get sent_message "labelIds" (PList []))], g')
    | (RaisedImportError e, g') =>
        (_error_response
           ("Google API packages not installed. "
            +:+ "Run: pip install google-api-python-client google-auth. "
            +:+ "Error: " +:+ exn_str e), g')
    | (RaisedHttpError e, g') =>
        (_error_response ("Gmail API error: " +:+ exn_str e), g')
    | (RaisedException e, g') =>
        (_error_response ("Failed to send email: " +:+ exn_str e), g')
    end.

End Execute.

End EmailTool.

(** ** The lazily built Gmail service: [EmailTool._get_service] *)

Module GmailService.

Section Service.

Context {G Service : Type}.

(** Lines 71-94: the lazy imports, [get_settings], loading the
    credentials of the service account, delegating them and building
    the client.  It returns the client or raises. *)
Variable build_service : G → (Exn + Service) * G.

(** The two attributes [__init__] sets. *)
Record ToolState := {
  _service : option Service;
  _initialized : bool
}.

(** [EmailTool.__init__] *)
Definition init : ToolState :=
  {| _service := None; _initialized := false |}.

(** [EmailTool._get_service]: both [except] clauses log and re-raise,
    before [_service] or [_initialized] is assigned. *)
Definition _get_service (self : ToolState) (g : G)
    : (Exn + option Service) * ToolState * G :=
  if negb (_initialized self) then
    match build_service g with
    | (inr built, g') =>
        (inr (Some built),
         {| _service := Some built; _initialized := true |}, g')
    | (inl e, g') => (inl e, self, g')
    end
  else (inr (_service self), self, g).

End Service.

End GmailService.

(** * Vocabulary of the properties *)

(** ** Context assembler *)

Definition base_of (block : ContextBlock) : string := base_id (chunk_id block).

(** The walk in the words of the specification: [Walk accepted walked kept] passes
    over the candidates [walked], starting with the base prefixes
    [accepted] already taken; a candidate is skipped exactly when its
    base prefix was already accepted, and kept (its prefix then being
    accepted) otherwise. *)
Inductive Walk : list string → list ContextBlock → list ContextBlock → Prop :=
  | Walk_done accepted : Walk accepted [] []
  | Walk_skip accepted c walked kept :
      base_of c ∈ accepted →
      Walk accepted walked kept →
      Walk accepted (c :: walked) kept
  | Walk_accept accepted c walked kept :
      base_of c ∉ accepted →
      Walk (accepted ++ [base_of c]) walked kept →
      Walk accepted (c :: walked) (c :: kept).

(** ** Citation extractor *)

(** The text [s] starts with a bracket-delimited token: a ['['], the
    token, which is not empty and holds no [']'], and the [']'] that
    closes it; [after] is what follows the closing bracket. *)
Definition bracketed_at (s tok after : string) : Prop :=
  s = "[" +:+ tok +:+ "]" +:+ after
  ∧ tok ≠ EmptyString ∧ PyStr.contains "]" tok = false.

(** The bracket-delimited tokens of a text, read from left to right:
    where the text starts with a token, that token is the next one and
    reading goes on after its closing bracket; elsewhere one character
    is passed over. *)
Inductive bracket_tokens : string → list string → Prop :=
  | tokens_end : bracket_tokens EmptyString []
  | tokens_token s tok after toks :
      bracketed_at s tok after →
      bracket_tokens after toks →
      bracket_tokens s (tok :: toks)
  | tokens_skip c s toks :
      (∀ tok after, ¬ bracketed_at (String c s) tok after) →
      bracket_tokens s toks →
      bracket_tokens (String c s) toks.

(** Every ['['] of [s] is followed, later in [s], by a [']']: no
    bracket opened in [s] is still open at its end. *)
Definition brackets_closed (s : string) : Prop :=
  ∀ p q, s = p +:+ "[" +:+ q → PyStr.contains "]" q = true.

(** ** Tool responses *)

(** The invariant of a tool outcome: a success carries a result and no
    error, a failure carries an error and no result. *)
Definition exclusive (r : ToolResponse) : Prop :=
  (success r = true → is_Some (result r) ∧ error r = None)
  ∧ (success r = false → is_Some (error r) ∧ result r = None).

(** ** Prompt builder *)

(** The system prompt around the context section. *)
Definition prompt_before (current_date : string) (current_year : Z) : string :=
  prompt_part0 +:+ current_date
  +:+ prompt_part1 +:+ str_of_int current_year
  +:+ prompt_part2 +:+ str_of_int current_year
  +:+ prompt_part3.

Definition prompt_after (current_year : Z) (corporate_email : string) : string :=
  prompt_part4 +:+ str_of_int current_year
  +:+ prompt_part5 +:+ corporate_email.

(** ** Anthropic adapter *)

Definition is_text (block : AnthropicBlock) : bool :=
  match block with TextBlock _ => true | _ => false end.

Definition is_tool_use (block : AnthropicBlock) : bool :=
  match block with ToolUseBlock _ _ _ => true | _ => false end.

(** ** Runs of the agent loop *)

Definition key_of_call (inv : ToolInvocation) : string * string :=
  (call_id inv, tool_name inv).

Definition key_of_result (out : ToolOutcome) : string * string :=
  (out_call_id out, out_tool_name out).

Section RunVocabulary.

Context {W : Type}.
Variable ext : Oracles W.
Variable settings : Settings.
Variable self : AgentService.

Implicit Types st : RunState W.

(** The registry precondition: every dispatch returns a result. *)
Definition registry_returns : Prop :=
  ∀ name kwargs w, ∃ r w', execute_tool ext name kwargs w = (inr r, w').

(** A tool call that the provider can return: it is among the tool
    calls of some response of [_call_llm_with_tools]. *)
Definition emitted (tool_call : ToolCall) : Prop :=
  ∃ messages st response st' calls,
    _call_llm_with_tools ext settings self messages st = (inr response, st')
    ∧ resp_tool_calls response = Some calls
    ∧ tool_call ∈ calls.

(** The argument text of the call, if it decodes at all, decodes to a
    mapping. *)
Definition mapping_if_decoded (tool_call : ToolCall) : Prop :=
  ∀ v, json_loads ext (fn_arguments (tc_function tool_call)) = inr v →
       ∃ d, v = PDict d.

(** The argument text of the call decodes to a mapping. *)
Definition decodes_to_mapping (tool_call : ToolCall) : Prop :=
  ∃ d, json_loads ext (fn_arguments (tc_function tool_call)) = inr (PDict d).

(** The provider's argument texts, where they decode, are mappings. *)
Definition arguments_are_mappings : Prop :=
  ∀ tool_call, emitted tool_call → mapping_if_decoded tool_call.

(** Between two states of a run: both lists have grown, by as many
    outcomes as invocations, matching in [call_id] and [tool_name]
    position by position. *)
Definition grows_aligned st st' : Prop :=
  ∃ new_calls new_results,
    tool_calls_made st' = tool_calls_made st ++ new_calls
    ∧ tool_results st' = tool_results st ++ new_results
    ∧ key_of_result <$> new_results = key_of_call <$> new_calls.

(** Both lists have grown; the outcomes match a prefix of the
    invocations, and at most the last invocation has no outcome. *)
Definition grows_lagging st st' : Prop :=
  ∃ new_calls new_results,
    tool_calls_made st' = tool_calls_made st ++ new_calls
    ∧ tool_results st' = tool_results st ++ new_results
    ∧ (key_of_result <$> new_results) `prefix_of` (key_of_call <$> new_calls)
    ∧ length new_calls ≤ S (length new_results).

(** The provider asks for tools on every turn. *)
Definition provider_always_calls_tools : Prop :=
  ∀ messages st, ∃ response st' tc tcs,
    _call_llm_with_tools ext settings self messages st = (inr response, st')
    ∧ resp_tool_calls response = Some (tc :: tcs).

(** Every argument text of the provider decodes to a mapping. *)
Definition arguments_decode : Prop :=
  ∀ tool_call, emitted tool_call → decodes_to_mapping tool_call.

(** The state in which the [try] is entered. *)
Definition initial_state (w : W) : RunState W :=
  {| world := w; tool_calls_made := []; tool_results := [];
     calling_entered := 0 |}.

End RunVocabulary.

(** ** The email tool *)

(** The name of a parameter that was passed as [None]. *)
Definition absent (name : string) (x : option string) : list string :=
  match x with None => [name] | Some _ => [] end.

(** ** The adapters *)

(** The tool call a [tool_use] block stands for, none for other blocks. *)
Definition tool_use_call (dumps : PyVal → string) (block : AnthropicBlock)
    : option ToolCall :=
  match block with
  | ToolUseBlock id name input =>
      Some {| tc_id := id;
              tc_function := {| fn_name := name;
                                fn_arguments := dumps input |} |}
  | _ => None
  end.

(** The content of the last message of role [system] in a history, or
    [fallback] when it has none. *)
Definition last_system (fallback : string) (history : list ChatMessage)
    : string :=
  default fallback
    (last (chat_content
           <$> filter (λ msg, chat_role msg = "system") history)).

(** ** Rendering and citing *)

(** A block that can be cited from its rendering: its [chunk_id] is not
    empty and holds no [']'], and its text holds no ['[']. *)
Definition citable (block : ContextBlock) : Prop :=
  chunk_id block ≠ EmptyString
  ∧ PyStr.contains "]" (chunk_id block) = false
  ∧ PyStr.contains "[" (text block) = false.

(** ** One tool call of a turn *)

(** The entry of [tool_calls_made] for a tool call with decoded
    arguments. *)
Definition invocation_of (tool_call : ToolCall) (tool_args : PyVal)
    : ToolInvocation :=
  {| tool_name := fn_name (tc_function tool_call);
     arguments := tool_args;
     call_id := tc_id tool_call |}.

(** The entry of [tool_results] for a tool call and the response of the
    registry. *)
Definition outcome_of (tool_call : ToolCall) (r : ToolResponse)
    : ToolOutcome :=
  {| out_call_id := tc_id tool_call;
     out_tool_name := fn_name (tc_function tool_call);
     out_success := success r;
     out_result := result r;
     out_error := error r |}.

(** The two messages a tool call adds to the conversation. *)
Definition turn_messages {W} (ext : Oracles W) (tool_call : ToolCall)
    (r : ToolResponse) : list Message :=
  [assistant_message tool_call; tool_message ext tool_call r].

(** The registry answers the tool calls of a turn in order, each on the
    state of the outside left by the one before: the argument text of
    the call decodes to a mapping, and [execute_tool], given the name of
    the call and that mapping, returns the response. *)
Inductive dispatched {W} (ext : Oracles W)
    : list ToolCall → W → list ToolResponse → W → Prop :=
  | dispatched_nil w : dispatched ext [] w [] w
  | dispatched_cons tool_call calls kwargs w resp w1 responses w' :
      json_loads ext (fn_arguments (tc_function tool_call))
      = inr (PDict kwargs) →
      execute_tool ext (fn_name (tc_function tool_call)) kwargs w
      = (inr resp, w1) →
      dispatched ext calls w1 responses w' →
      dispatched ext (tool_call :: calls) w (resp :: responses) w'.

(** The outcome is what the registry answered to the invocation: the
    arguments were a mapping, the registry returned a response for the
    tool name and these arguments, and the outcome carries the ids of
    the invocation and the three fields of the response, unchanged. *)
Definition answered {W} (ext : Oracles W) (inv : ToolInvocation)
    (out : ToolOutcome) : Prop :=
  ∃ kwargs w w' r,
    arguments inv = PDict kwargs
    ∧ execute_tool ext (tool_name inv) kwargs w = (inr r, w')
    ∧ out = {| out_call_id := call_id inv;
               out_tool_name := tool_name inv;
               out_success := success r;
               out_result := result r;
               out_error := error r |}.

(** ** Scripted collaborators for concrete runs

    The world is the number of provider calls made so far; a scenario
    fixes what each collaborator answers. *)
Module Demo.

Record Scenario := {
  sc_embed : Exn + list Z;
  sc_search : Exn + list ContextBlock;
  sc_provider : nat → Exn + list OpenAIMessage;
  sc_loads : string → Exn + PyVal;
  sc_tool : string → PyDict → Exn + ToolResponse
}.

Definition failure (kind msg : string) : Exn :=
  {| exn_type := kind; exn_str := msg |}.

(** [json.loads] on the two texts the scenarios use. *)
Definition loads (s : string) : Exn + PyVal :=
  if decide (s = "{}") then inr (PDict [])
  else if decide (s = "[]") then inr (PList [])
  else inl (failure "JSONDecodeError" "Expecting value").

Definition oracles (sc : Scenario) : Oracles nat :=
  {| embed_query := λ _ w, (sc_embed sc, w);
     vector_search := λ _ _ w, (sc_search sc, w);
     openai_create := λ _ _ _ w, (sc_provider sc w, S w);
     anthropic_create :=
       λ _ _ _ _ w, (inl (failure "RuntimeError" "no client"), w);
     execute_tool := λ name kwargs w, (sc_tool sc name kwargs, w);
     json_loads := sc_loads sc;
     json_dumps := λ _, "{}";
     time_time := λ w, (0%Z, w);
     datetime_now := λ w, ({| dt_ymd := "2026-01-01"; dt_year := 2026 |}, w) |}.

Definition settings : Settings :=
  {| ai_provider := "openai";
     openai_chat_model := "gpt-4o-mini";
     anthropic_chat_model := "claude";
     google_calendar_email := "office@example.com";
     TOOL_DEFINITIONS := [] |}.

Definition service : AgentService :=
  {| provider := "openai"; model := "gpt-4o-mini" |}.

Definition tool_turn (id name args : string) : list OpenAIMessage :=
  [{| oa_content := None;
      oa_tool_calls :=
        Some [{| tc_id := id;
                 tc_function := {| fn_name := name;
                                   fn_arguments := args |} |}] |}].

Definition text_turn (t : string) : list OpenAIMessage :=
  [{| oa_content := Some t; oa_tool_calls := None |}].

Definition tool_ok : string → PyDict → Exn + ToolResponse :=
  λ _ _, inr (BaseTool._success_response [("message_id", PStr "m1")]).

Definition policy_block : ContextBlock :=
  {| chunk_id := "policy_returns_v1";
     text := "Returns are accepted within 30 days.";
     source := "policies";
     similarity := 90 |}.

(** Retrieval works; the provider answers with text at once. *)
Definition answers : Scenario :=
  {| sc_embed := inr [1%Z];
     sc_search := inr [policy_block];
     sc_provider := λ _,
       inr (text_turn "You can return items within 30 days. [policy_returns_v1]");
     sc_loads := loads;
     sc_tool := tool_ok |}.

(** The provider asks for a tool on every turn. *)
Definition always_tools : Scenario :=
  {| sc_embed := inr [1%Z];
     sc_search := inr [policy_block];
     sc_provider := λ n, inr (tool_turn "call_1" "send_email" "{}");
     sc_loads := loads;
     sc_tool := tool_ok |}.

(** One tool call, then text. *)
Definition one_tool : Scenario :=
  {| sc_embed := inr [1%Z];
     sc_search := inr [policy_block];
     sc_provider := λ n,
       match n with
       | O => inr (tool_turn "call_1" "create_calendar_event" "{}")
       | _ => inr (text_turn "Scheduled.")
       end;
     sc_loads := loads;
     sc_tool := tool_ok |}.

(** The provider asks for a tool whose arguments are a JSON array. *)
Definition array_arguments : Scenario :=
  {| sc_embed := inr [1%Z];
     sc_search := inr [policy_block];
     sc_provider := λ n, inr (tool_turn "call_1" "send_email" "[]");
     sc_loads := loads;
     sc_tool := tool_ok |}.

(** The first turn runs a tool; the second provider call fails. *)
Definition provider_fails_second : Scenario :=
  {| sc_embed := inr [1%Z];
     sc_search := inr [policy_block];
     sc_provider := λ n,
       match n with
       | O => inr (tool_turn "call_1" "send_email" "{}")
       | _ => inl (failure "APIConnectionError" "Connection error.")
       end;
     sc_loads := loads;
     sc_tool := tool_ok |}.


Definition run (sc : Scenario) (query : string) (max_iterations : Z)
    : AgentResult * RunState nat :=
  process_query_run (oracles sc) settings service query None None 6
    max_iterations 0.

End Demo.

(** * Properties *)

(** ** Strings *)

Lemma append_nil_l (s : string) : EmptyString +:+ s = s.
Proof. reflexivity. Qed.

Lemma append_cons (d : ascii) (p q : string) :
  String d p +:+ q = String d (p +:+ q).
Proof. reflexivity. Qed.

Lemma append_length (p q : string) :
  String.length (p +:+ q) = (String.length p + String.length q)%nat.
Proof.
  induction p as [|d p IH]; [done|].
  rewrite append_cons. simpl. by rewrite IH.
Qed.

Lemma append_assoc (p q r : string) : (p +:+ q) +:+ r = p +:+ (q +:+ r).
Proof.
  induction p as [|d p IH]; [done|].
  rewrite !append_cons. by rewrite IH.
Qed.

Lemma span_not_length c s pre post :
  PyStr.span_not c s = (pre, post) →
  String.length s = (String.length pre + String.length post)%nat.
Proof.
  revert pre post. induction s as [|d s IH]; intros pre post; simpl.
  - intros [= <- <-]. done.
  - destruct (Ascii.eqb d c).
    + intros [= <- <-]. done.
    + destruct (PyStr.span_not c s) as [p q].
      intros [= <- <-]. simpl. by rewrite (IH p q).
Qed.

Lemma span_not_app c s pre post :
  PyStr.span_not c s = (pre, post) → s = pre +:+ post.
Proof.
  revert pre post. induction s as [|d s IH]; intros pre post; simpl.
  - intros [= <- <-]. done.
  - destruct (Ascii.eqb d c).
    + intros [= <- <-]. done.
    + destruct (PyStr.span_not c s) as [p q].
      intros [= <- <-]. rewrite append_cons. f_equal. by apply IH.
Qed.

Lemma span_not_free c s pre post :
  PyStr.span_not c s = (pre, post) → PyStr.contains c pre = false.
Proof.
  revert pre post. induction s as [|d s IH]; intros pre post; simpl.
  - intros [= <- <-]. done.
  - destruct (Ascii.eqb d c) eqn:Ed.
    + intros [= <- <-]. done.
    + destruct (PyStr.span_not c s) as [p q].
      intros [= <- <-]. simpl. rewrite Ed. by eapply IH.
Qed.

(** The text before the first [c] is what [split] puts first. *)
Lemma split_hd c pre post :
  PyStr.contains c pre = false →
  hd EmptyString (PyStr.split c (pre +:+ String c post)) = pre.
Proof.
  induction pre as [|d pre IH].
  - intros _. rewrite append_nil_l. simpl. by rewrite Ascii.eqb_refl.
  - rewrite append_cons. simpl.
    destruct (Ascii.eqb d c) eqn:Ed; [done|]. intros Hfree.
    specialize (IH Hfree).
    destruct (PyStr.split c (pre +:+ String c post)) as [|h t];
      simpl in *; by subst.
Qed.

Lemma contains_app_sep c pre post :
  PyStr.contains c (pre +:+ String c post) = true.
Proof.
  induction pre as [|d pre IH].
  - rewrite append_nil_l. simpl. by rewrite Ascii.eqb_refl.
  - rewrite append_cons. simpl. by destruct (Ascii.eqb d c).
Qed.

Lemma span_not_app_sep c pre post :
  PyStr.contains c pre = false →
  PyStr.span_not c (pre +:+ String c post) = (pre, String c post).
Proof.
  induction pre as [|d pre IH].
  - intros _. rewrite append_nil_l. simpl. by rewrite Ascii.eqb_refl.
  - rewrite append_cons. simpl. destruct (Ascii.eqb d c); [done|].
    intros H. by rewrite IH.
Qed.

(** The first occurrence of a character that a text holds. *)
Lemma contains_first c s :
  PyStr.contains c s = true →
  ∃ u v, s = u +:+ String c v ∧ PyStr.contains c u = false.
Proof.
  induction s as [|d s IH]; simpl; [done|].
  destruct (Ascii.eqb d c) eqn:Ed.
  - apply Ascii.eqb_eq in Ed as ->. intros _. by exists EmptyString, s.
  - intros Hc. destruct (IH Hc) as (u & v & -> & Hfree).
    exists (String d u), v. split; [done|]. simpl. by rewrite Ed.
Qed.

(** [base_id] is the base prefix of the specification: the text before the first
    ['#'], or the whole identifier when it holds no ['#']. *)
Lemma base_id_spec s :
  (PyStr.contains "#" s = false → base_id s = s)
  ∧ (∀ pre post, s = pre +:+ String "#" post →
       PyStr.contains "#" pre = false → base_id s = pre).
Proof.
  split.
  - intros H. unfold base_id. by rewrite H.
  - intros pre post -> Hfree. unfold base_id.
    rewrite contains_app_sep. by apply split_hd.
Qed.

(** ** Context assembler *)

Lemma Walk_sublist accepted walked kept :
  Walk accepted walked kept → kept `sublist_of` walked.
Proof.
  induction 1; [done | by apply sublist_cons | by apply sublist_skip].
Qed.

Lemma Walk_NoDup accepted walked kept :
  Walk accepted walked kept → NoDup accepted →
  NoDup (accepted ++ (base_of <$> kept)).
Proof.
  induction 1 as [a | a c w k Hin _ IH | a c w k Hnotin _ IH]; intros Hnd.
  - by rewrite app_nil_r.
  - by apply IH.
  - rewrite fmap_cons, cons_middle, app_assoc. apply IH.
    apply NoDup_app. split_and!; [done | | apply NoDup_singleton].
    intros x Hx ->%list_elem_of_singleton. done.
Qed.

Lemma dedup_walk_seen result rest (seen : gset string) acc :
  base_of result ∈ seen →
  dedup_walk (result :: rest) seen acc
  = if 4 <=? length acc then acc else dedup_walk rest seen acc.
Proof.
  intros Hin. simpl. fold (base_of result).
  by destruct (decide (base_of result ∈ seen)).
Qed.

Lemma dedup_walk_fresh result rest (seen : gset string) acc :
  base_of result ∉ seen →
  dedup_walk (result :: rest) seen acc
  = if 4 <=? length (acc ++ [result]) then acc ++ [result]
    else dedup_walk rest (seen ∪ {[base_of result]}) (acc ++ [result]).
Proof.
  intros Hnotin. simpl. fold (base_of result).
  by destruct (decide (base_of result ∈ seen)).
Qed.

(** The loop of [_get_rag_context], from any point where fewer than four
    blocks are held and [seen_prefixes] is the set of their prefixes. *)
Lemma dedup_walk_spec (search_results : list ContextBlock)
    (seen_prefixes : gset string) (context_blocks : list ContextBlock) :
  (∀ b, b ∈ seen_prefixes ↔ b ∈ base_of <$> context_blocks) →
  length context_blocks < 4 →
  ∃ kept walked unvisited,
    dedup_walk search_results seen_prefixes context_blocks
      = context_blocks ++ kept
    ∧ search_results = walked ++ unvisited
    ∧ Walk (base_of <$> context_blocks) walked kept
    ∧ (unvisited ≠ [] → length (context_blocks ++ kept) = 4)
    ∧ length (context_blocks ++ kept) ≤ 4.
Proof.
  revert seen_prefixes context_blocks.
  induction search_results as [|c rest IH]; intros seen acc Hseen Hlen.
  - exists [], [], []. rewrite app_nil_r.
    split_and!; try done; [constructor | lia].
  - destruct (decide (base_of c ∈ seen)) as [Hin|Hnotin].
    + rewrite dedup_walk_seen by done.
      destruct (4 <=? length acc) eqn:Hcap; [apply Nat.leb_le in Hcap; lia|].
      destruct (IH seen acc Hseen Hlen) as (k & w & u & E & -> & Hw & Hu & Hk).
      exists k, (c :: w), u. split_and!; try done.
      apply Walk_skip; [by apply Hseen | done].
    + rewrite dedup_walk_fresh by done.
      destruct (4 <=? length (acc ++ [c])) eqn:Hcap.
      * apply Nat.leb_le in Hcap. rewrite length_app in Hcap. simpl in Hcap.
        exists [c], [c], rest. rewrite length_app. simpl.
        split_and!; try done; try lia.
        apply Walk_accept; [by rewrite <- Hseen | constructor].
      * apply Nat.leb_gt in Hcap.
        destruct (IH (seen ∪ {[base_of c]}) (acc ++ [c]))
          as (k & w & u & E & -> & Hw & Hu & Hk); [|done|].
        { intros b. rewrite fmap_app, elem_of_app, elem_of_union, Hseen.
          simpl. rewrite list_elem_of_singleton, elem_of_singleton. done. }
        exists (c :: k), (c :: w), u.
        rewrite <- app_assoc in E, Hu, Hk. simpl in E, Hu, Hk.
        split_and!; try done.
        apply Walk_accept; [by rewrite <- Hseen |].
        by rewrite fmap_app in Hw.
Qed.

(** C5. For every list of candidates the context assembler returns at
    most four blocks, no two of which share a base prefix (the text of
    [chunk_id] before its first ['#'], or all of it when it holds none);
    the blocks returned are a subsequence of the candidates in their
    order, obtained by walking the candidates until four blocks are held
    or none is left, each candidate walked being skipped exactly when
    its base prefix was already accepted. *)
Theorem context_assembler_dedup (search_results : list ContextBlock) :
  let blocks := dedup_context search_results in
  length blocks ≤ 4
  ∧ NoDup (base_of <$> blocks)
  ∧ blocks `sublist_of` search_results
  ∧ (∃ walked unvisited,
       search_results = walked ++ unvisited
       ∧ Walk [] walked blocks
       ∧ (unvisited ≠ [] → length blocks = 4))
  ∧ (∀ block, let s := chunk_id block in
       (PyStr.contains "#" s = false → base_of block = s)
       ∧ (∀ pre post, s = pre +:+ String "#" post →
            PyStr.contains "#" pre = false → base_of block = pre)).
Proof.
  intros blocks. subst blocks. unfold dedup_context.
  destruct (dedup_walk_spec search_results ∅ [])
    as (k & w & u & E & Hsplit & Hw & Hu & Hk).
  { intros b. simpl. set_solver. }
  { simpl. lia. }
  simpl in *. rewrite E. split_and!.
  - done.
  - by apply (Walk_NoDup [] w k Hw), NoDup_nil.
  - rewrite Hsplit. apply sublist_inserts_r. by eapply Walk_sublist.
  - by exists w, u.
  - intros block. apply base_id_spec.
Qed.

(** ** Citation extractor *)

Lemma match_citation_at_shorter s tok after :
  match_citation_at s = Some (tok, after) →
  String.length after < String.length s.
Proof.
  destruct s as [|a rest]; [done|]. unfold match_citation_at.
  destruct (Ascii.eqb a "[") eqn:Ea.
  - apply Ascii.eqb_eq in Ea as ->.
    destruct (PyStr.span_not "]" rest) as [p q] eqn:E.
    apply span_not_length in E.
    destruct p as [|c p]; [done|]. destruct q as [|b q]; [done|].
    destruct (Ascii.eqb b "]") eqn:Eb.
    + apply Ascii.eqb_eq in Eb as ->. intros [= <- <-].
      simpl in *. lia.
    + intros H. exfalso. revert H Eb. clear.
      destruct b as [[] [] [] [] [] [] [] []]; simpl; congruence.
  - intros H. exfalso. revert H Ea. clear.
    destruct a as [[] [] [] [] [] [] [] []]; simpl; congruence.
Qed.

(** A match is a bracketed token: the text starts with ['['], the
    non-empty token without [']'], and [']']. *)
Lemma match_citation_at_shape s tok after :
  match_citation_at s = Some (tok, after) →
  s = "[" +:+ tok +:+ "]" +:+ after
  ∧ tok ≠ EmptyString ∧ PyStr.contains "]" tok = false.
Proof.
  destruct s as [|a rest]; [done|]. unfold match_citation_at.
  destruct (Ascii.eqb a "[") eqn:Ea.
  - apply Ascii.eqb_eq in Ea as ->.
    destruct (PyStr.span_not "]" rest) as [p q] eqn:E.
    pose proof (span_not_app _ _ _ _ E) as Happ.
    pose proof (span_not_free _ _ _ _ E) as Hfree.
    destruct p as [|c p]; [done|]. destruct q as [|b q]; [done|].
    destruct (Ascii.eqb b "]") eqn:Eb.
    + apply Ascii.eqb_eq in Eb as ->. intros [= <- <-].
      split_and!; [|done|done].
      rewrite append_cons, append_nil_l. f_equal. done.
    + intros H. exfalso. revert H Eb. clear.
      destruct b as [[] [] [] [] [] [] [] []]; simpl; congruence.
  - intros H. exfalso. revert H Ea. clear.
    destruct a as [[] [] [] [] [] [] [] []]; simpl; congruence.
Qed.

Lemma match_citation_at_other (c : ascii) (s : string) :
  Ascii.eqb c "[" = false → match_citation_at (String c s) = None.
Proof.
  intros Hc. unfold match_citation_at.
  destruct c as [[] [] [] [] [] [] [] []]; try done.
Qed.

Lemma match_citation_at_marker (id rest : string) :
  id ≠ EmptyString → PyStr.contains "]" id = false →
  match_citation_at ("[" +:+ id +:+ String "]" rest) = Some (id, rest).
Proof.
  intros Hne Hfree. rewrite append_cons, append_nil_l.
  unfold match_citation_at. rewrite span_not_app_sep by done.
  by destruct id.
Qed.

(** The pattern matches at the start of a text exactly when the text
    starts with a bracket-delimited token. *)
Lemma bracketed_at_match s tok after :
  bracketed_at s tok after ↔ match_citation_at s = Some (tok, after).
Proof.
  split.
  - intros (-> & Hne & Hfree).
    change ("]" +:+ after) with (String "]" after).
    by apply match_citation_at_marker.
  - apply match_citation_at_shape.
Qed.

(** Fuel above the length of the text is never used up. *)
Lemma findall_from_fuel fuel1 fuel2 s :
  String.length s < fuel1 → String.length s < fuel2 →
  findall_from fuel1 s = findall_from fuel2 s.
Proof.
  revert fuel2 s. induction fuel1 as [|fuel1 IH]; intros fuel2 s H1 H2; [lia|].
  destruct fuel2 as [|fuel2]; [lia|]. simpl.
  destruct (match_citation_at s) as [[tok after]|] eqn:E.
  - apply match_citation_at_shorter in E. f_equal. apply IH; lia.
  - destruct s as [|a s']; [done|]. simpl in *. apply IH; lia.
Qed.

Lemma findall_from_S fuel s :
  findall_from (S fuel) s =
  match match_citation_at s with
  | Some (tok, after) => tok :: findall_from fuel after
  | None =>
      match s with
      | EmptyString => []
      | String _ s' => findall_from fuel s'
      end
  end.
Proof. reflexivity. Qed.

(** The equation of the scan. *)
Lemma findall_citations_eq text :
  findall_citations text =
  match match_citation_at text with
  | Some (tok, after) => tok :: findall_citations after
  | None =>
      match text with
      | EmptyString => []
      | String _ text' => findall_citations text'
      end
  end.
Proof.
  unfold findall_citations. rewrite findall_from_S.
  destruct (match_citation_at text) as [[tok after]|] eqn:E.
  - apply match_citation_at_shorter in E. f_equal.
    apply findall_from_fuel; lia.
  - destruct text as [|a s']; [done|].
    apply findall_from_fuel; simpl; lia.
Qed.

(** Every token found stands between brackets in the text. *)
Lemma findall_citations_bracketed text tok :
  tok ∈ findall_citations text →
  ∃ pre post, text = pre +:+ "[" +:+ tok +:+ "]" +:+ post
              ∧ tok ≠ EmptyString ∧ PyStr.contains "]" tok = false.
Proof.
  remember (String.length text) as n eqn:Hn. revert text Hn.
  induction n as [n IH] using lt_wf_ind. intros text -> Hin.
  rewrite findall_citations_eq in Hin.
  destruct (match_citation_at text) as [[t after]|] eqn:E.
  - pose proof (match_citation_at_shorter _ _ _ E) as Hlt.
    destruct (match_citation_at_shape _ _ _ E) as (Hs & Hne & Hfree).
    apply elem_of_cons in Hin as [->|Hin].
    + exists EmptyString, after. by rewrite append_nil_l.
    + destruct (IH _ Hlt after eq_refl Hin) as (pre & post & -> & ? & ?).
      exists ("[" +:+ t +:+ "]" +:+ pre), post. split; [|done].
      rewrite Hs. by rewrite !append_assoc.
  - destruct text as [|a s']; [by apply elem_of_nil in Hin|].
    destruct (IH (String.length s') ltac:(simpl; lia) s' eq_refl Hin)
      as (pre & post & -> & ? & ?).
    exists (String a pre), post. by rewrite append_cons.
Qed.

(** The scan reads the bracket-delimited tokens of the text. *)
Lemma findall_citations_tokens text :
  bracket_tokens text (findall_citations text).
Proof.
  remember (String.length text) as n eqn:Hn. revert text Hn.
  induction n as [n IH] using lt_wf_ind. intros text ->.
  rewrite findall_citations_eq.
  destruct (match_citation_at text) as [[tok after]|] eqn:E.
  - pose proof (match_citation_at_shorter _ _ _ E) as Hlt.
    apply tokens_token with after; [by apply bracketed_at_match|].
    by apply (IH _ Hlt).
  - destruct text as [|c s']; [constructor|].
    apply tokens_skip.
    + intros tok after Htok. apply bracketed_at_match in Htok. congruence.
    + apply (IH (String.length s')); [simpl; lia | done].
Qed.

(** The text has no other reading. *)
Lemma bracket_tokens_unique text toks :
  bracket_tokens text toks → toks = findall_citations text.
Proof.
  induction 1 as [|s tok after toks Htok _ IH|c s toks Hnone _ IH].
  - reflexivity.
  - rewrite findall_citations_eq.
    apply bracketed_at_match in Htok. rewrite Htok. by f_equal.
  - rewrite findall_citations_eq.
    destruct (match_citation_at (String c s)) as [[tok after]|] eqn:E;
      [|done].
    apply bracketed_at_match in E. by destruct (Hnone tok after).
Qed.

Lemma brackets_closed_suffix (p s : string) :
  brackets_closed (p +:+ s) → brackets_closed s.
Proof.
  intros Hclosed p' q ->. apply (Hclosed (p +:+ p') q).
  by rewrite append_assoc.
Qed.

(** A token between brackets is found wherever no bracket opened before
    it is still open. *)
Lemma findall_citations_complete (pre tok post : string) :
  tok ≠ EmptyString → PyStr.contains "]" tok = false →
  brackets_closed pre →
  tok ∈ findall_citations (pre +:+ "[" +:+ tok +:+ "]" +:+ post).
Proof.
  intros Hne Hfree.
  remember (String.length pre) as n eqn:Hn. revert pre Hn.
  induction n as [n IH] using lt_wf_ind. intros pre -> Hclosed.
  destruct pre as [|c pre'].
  - rewrite append_nil_l, findall_citations_eq.
    change ("]" +:+ post) with (String "]" post).
    rewrite match_citation_at_marker by done. apply elem_of_cons. by left.
  - assert (Hsuffix : brackets_closed pre')
      by (apply (brackets_closed_suffix (String c EmptyString)), Hclosed).
    assert (Hskip : tok ∈ findall_citations
                            (pre' +:+ "[" +:+ tok +:+ "]" +:+ post))
      by (apply (IH (String.length pre')); [simpl; lia | done | done]).
    rewrite append_cons, findall_citations_eq.
    destruct (Ascii.eqb c "[") eqn:Ec;
      [|by rewrite match_citation_at_other].
    apply Ascii.eqb_eq in Ec as ->.
    destruct (contains_first "]" pre' (Hclosed EmptyString pre' eq_refl))
      as (u & v & -> & Hu).
    destruct u as [|a u'].
    + done.
    + rewrite append_assoc.
      change (String "]" v +:+ "[" +:+ tok +:+ "]" +:+ post)
        with (String "]" (v +:+ "[" +:+ tok +:+ "]" +:+ post)).
      change (String "[" ?x) with ("[" +:+ x).
      rewrite match_citation_at_marker by done.
      apply elem_of_cons. right.
      apply (IH (String.length v)); [|done|].
      * simpl. rewrite append_length. simpl. lia.
      * apply (brackets_closed_suffix
                 (String "[" (String a u' +:+ String "]" EmptyString))).
        rewrite append_cons, append_assoc. exact Hclosed.
Qed.

(** The duplicate-removing loop keeps what it holds, adds each new
    citation once, and places each where it first occurs: what stands
    before [c] in the output is what was held or occurred before the
    first [c]. *)
Lemma unique_loop_spec (valid unique : list string) :
  NoDup unique →
  ∃ added,
    unique_loop valid unique = unique ++ added
    ∧ NoDup (unique ++ added)
    ∧ (∀ x, x ∈ added ↔ x ∈ valid ∧ x ∉ unique)
    ∧ (∀ pre c post, valid = pre ++ c :: post → c ∉ pre → c ∉ unique →
         ∃ a1 a2, added = a1 ++ c :: a2
                  ∧ ∀ x, x ∈ unique ++ a1 ↔ x ∈ unique ∨ x ∈ pre).
Proof.
  revert unique. induction valid as [|a valid IH]; intros unique Hnd.
  - exists []. rewrite app_nil_r. split_and!; try done.
    + intros x. rewrite !elem_of_nil. tauto.
    + intros [|??] ???; done.
  - simpl. destruct (decide (a ∈ unique)) as [Hin|Hnotin].
    + destruct (IH unique Hnd) as (added & E & Hnd' & Hmem & Hord).
      exists added. split_and!; try done.
      * intros x. rewrite Hmem, elem_of_cons. split; [tauto|].
        intros [[->|?] ?]; [done|tauto].
      * intros pre c post Hsplit Hc Hcu.
        destruct pre as [|b pre]; simplify_eq/=; [done|].
        apply not_elem_of_cons in Hc as [Hcb Hc].
        destruct (Hord pre c post eq_refl Hc Hcu) as (a1 & a2 & -> & Hpre).
        exists a1, a2. split; [done|]. intros x.
        rewrite Hpre, elem_of_cons. split; [tauto|].
        intros [?|[->|?]]; tauto.
    + destruct (IH (unique ++ [a])) as (added & E & Hnd' & Hmem & Hord).
      { apply NoDup_app. split_and!; [done | | apply NoDup_singleton].
        intros x Hx ->%list_elem_of_singleton. done. }
      exists (a :: added). rewrite E, <- app_assoc. simpl.
      split_and!; try done.
      * by rewrite <- app_assoc in Hnd'.
      * intros x. rewrite !elem_of_cons, Hmem, elem_of_app,
          list_elem_of_singleton.
        destruct (decide (x = a)) as [->|Hne]; tauto.
      * intros pre c post Hsplit Hc Hcu.
        destruct pre as [|b pre]; simplify_eq/=.
        -- exists [], added. split; [done|]. intros x.
           rewrite app_nil_r, elem_of_nil. tauto.
        -- apply not_elem_of_cons in Hc as [Hcb Hc].
           destruct (Hord pre c post eq_refl Hc) as (a1 & a2 & -> & Hpre).
           { rewrite elem_of_app, list_elem_of_singleton. tauto. }
           exists (b :: a1), a2. split; [done|]. intros x.
           specialize (Hpre x).
           rewrite <- app_assoc in Hpre. simpl in Hpre. rewrite Hpre.
           rewrite elem_of_app, list_elem_of_singleton, elem_of_cons. tauto.
Qed.

(** C6. For every text and every list of context blocks, the citation
    extractor returns exactly the bracket-delimited tokens of the text
    that equal the [chunk_id] of some supplied block, each once, in the
    order of their first occurrence in the text.  A token that matches
    no block is left out; the extractor is total, and its result is a
    duplicate-free subset of the [chunk_id]s of the context.

    The tokens scanned, [found], are the bracket-delimited tokens of
    the text read from left to right, and the text has no other
    reading; in particular a non-empty token without [']'] that stands
    between brackets is found wherever no bracket opened before it is
    still open, and is cited when it is a [chunk_id] of the context. *)
Theorem citation_extractor_spec (text : string)
    (context_blocks : list ContextBlock) :
  let found := findall_citations text in
  let ids := chunk_id <$> context_blocks in
  let cites := _extract_citations text context_blocks in
  (∀ tok, tok ∈ found →
     ∃ pre post, text = pre +:+ "[" +:+ tok +:+ "]" +:+ post
                 ∧ tok ≠ EmptyString ∧ PyStr.contains "]" tok = false)
  ∧ (∀ c, c ∈ cites ↔ c ∈ found ∧ c ∈ ids)
  ∧ NoDup cites
  ∧ cites ⊆ ids
  ∧ (∀ pre c post, found = pre ++ c :: post → c ∉ pre → c ∈ ids →
       ∃ c1 c2, cites = c1 ++ c :: c2 ∧ ∀ x, x ∈ c1 ↔ x ∈ pre ∧ x ∈ ids)
  ∧ bracket_tokens text found
  ∧ (∀ toks, bracket_tokens text toks → toks = found)
  ∧ (∀ pre tok post,
       text = pre +:+ "[" +:+ tok +:+ "]" +:+ post →
       tok ≠ EmptyString → PyStr.contains "]" tok = false →
       brackets_closed pre →
       tok ∈ found ∧ (tok ∈ ids → tok ∈ cites)).
Proof.
  intros found ids cites. subst cites. unfold _extract_citations.
  fold found. fold ids.
  set (valid_ids := list_to_set ids : gset string).
  assert (Hvalid : ∀ x, x ∈ valid_ids ↔ x ∈ ids)
    by (intros x; apply elem_of_list_to_set).
  destruct (unique_loop_spec (filter (λ cite, cite ∈ valid_ids) found) [])
    as (added & E & Hnd & Hmem & Hord); [apply NoDup_nil_2|].
  simpl in E, Hnd. rewrite E.
  assert (Hin : ∀ c, c ∈ added ↔ c ∈ found ∧ c ∈ ids).
  { intros c. rewrite Hmem, list_elem_of_filter, Hvalid, elem_of_nil. tauto. }
  split_and!.
  - intros tok. apply findall_citations_bracketed.
  - done.
  - done.
  - intros c Hc. by apply Hin in Hc as [_ ?].
  - intros pre c post Hsplit Hc Hid.
    destruct (Hord (filter (λ cite, cite ∈ valid_ids) pre) c
                   (filter (λ cite, cite ∈ valid_ids) post))
      as (a1 & a2 & -> & Hpre).
    + rewrite Hsplit, filter_app, filter_cons_True; [done|]. by apply Hvalid.
    + rewrite list_elem_of_filter. tauto.
    + apply not_elem_of_nil.
    + exists a1, a2. split; [done|]. intros x.
      specialize (Hpre x). simpl in Hpre.
      rewrite Hpre, list_elem_of_filter, Hvalid, elem_of_nil. tauto.
  - apply findall_citations_tokens.
  - apply bracket_tokens_unique.
  - intros pre tok post Htext Hne Hfree Hclosed.
    assert (Hfound : tok ∈ found)
      by (subst found; rewrite Htext;
          by apply findall_citations_complete).
    split; [done|]. intros Hid. by apply Hin.
Qed.

(** ** Tool responses *)

(** C8. Every response built by [BaseTool._success_response] or
    [BaseTool._error_response], and so every response returned by
    [EmailTool.execute] on any of its branches, has [success = True]
    with a result mapping and a null error, or [success = False] with
    an error string and a null result. *)
Theorem tool_response_exclusive :
  (∀ payload, exclusive (BaseTool._success_response payload))
  ∧ (∀ message, exclusive (BaseTool._error_response message))
  ∧ (∀ (G : Type) (gmail_send : PyVal → PyVal → PyVal → G
                                → EmailTool.SendOutcome * G)
       (corporate_email : string) (to subject body : option string)
       (kwargs : PyDict) (g : G),
       exclusive
         (EmailTool.execute gmail_send corporate_email to subject body
            kwargs g).1).
Proof.
  assert (Hs : ∀ payload, exclusive (BaseTool._success_response payload)).
  { intros payload. split; simpl; [eauto | done]. }
  assert (He : ∀ message, exclusive (BaseTool._error_response message)).
  { intros message. split; simpl; [done | eauto]. }
  split_and!; [done | done |].
  intros G gmail_send corporate_email to subject body kwargs g.
  unfold EmailTool.execute.
  destruct (BaseTool.validate_params _ _) as [is_valid missing].
  destruct is_valid; simpl; [|apply He].
  destruct (gmail_send _ _ _ g) as [[e|e|e|sent] g']; simpl;
    [apply He | apply He | apply He | apply Hs].
Qed.

(** ** Prompt builder *)

Lemma system_prompt_split current_date current_year context corporate_email :
  system_prompt current_date current_year context corporate_email
  = prompt_before current_date current_year
    +:+ context +:+ prompt_after current_year corporate_email.
Proof.
  unfold system_prompt, prompt_before, prompt_after.
  by rewrite !append_assoc.
Qed.

(** C9. For every query, list of context blocks and optional history,
    the prompt builder returns a list whose first message has role
    [system]; the history messages follow it in the caller's order, each
    with its role and content, none dropped or cut; the last message has
    role [user] and the query as content.  The system message is the
    fixed prompt with the rendered context section in its place, and
    when there is no context block that section is the literal
    no-relevant-context marker. *)
Theorem prompt_builder_shape {W : Type} (ext : Oracles W)
    (settings : Settings) (query : string)
    (rag_context : list ContextBlock)
    (chat_history : option (list ChatMessage)) (w : W) :
  let messages :=
    (_build_initial_messages ext settings query rag_context chat_history w).1 in
  let history := default [] chat_history in
  ∃ system_message current_date current_year,
    messages
    = system_message
      :: ((λ msg, plain_message (chat_role msg) (chat_content msg)) <$> history)
      ++ [plain_message "user" query]
    ∧ role system_message = "system"
    ∧ length messages = S (S (length history))
    ∧ (∀ i msg, history !! i = Some msg →
         messages !! S i
         = Some (plain_message (chat_role msg) (chat_content msg)))
    ∧ last messages = Some (plain_message "user" query)
    ∧ content system_message
      = Some (prompt_before current_date current_year
              +:+ context_str rag_context
              +:+ prompt_after current_year (google_calendar_email settings))
    ∧ (rag_context = [] → context_str rag_context = no_context_marker).
Proof.
  intros messages history. subst messages. unfold _build_initial_messages.
  destruct (datetime_now ext w) as [d1 w1].
  destruct (datetime_now ext w1) as [d2 w2]. simpl.
  eexists _, (dt_ymd d1), (dt_year d2). unfold build_messages. simpl.
  assert (Hh : history_messages chat_history
               = (λ msg, plain_message (chat_role msg) (chat_content msg))
                 <$> history) by (by destruct chat_history).
  rewrite Hh. split_and!.
  - reflexivity.
  - done.
  - by rewrite length_app, length_fmap, Nat.add_1_r.
  - intros i msg Hi. simpl. rewrite lookup_app_l.
    + by rewrite list_lookup_fmap, Hi.
    + rewrite length_fmap. by eapply lookup_lt_Some.
  - by rewrite last_cons, last_snoc.
  - simpl. by rewrite system_prompt_split.
  - by intros ->.
Qed.

(** ** Anthropic adapter *)

Lemma scan_blocks_app dumps blocks1 blocks2 tool_calls content :
  scan_blocks dumps (blocks1 ++ blocks2) tool_calls content
  = let '(tool_calls', content') :=
      scan_blocks dumps blocks1 tool_calls content in
    scan_blocks dumps blocks2 tool_calls' content'.
Proof.
  revert tool_calls content.
  induction blocks1 as [|[t|i n v|ty] blocks1 IH]; intros tool_calls content;
    simpl; [done | apply IH ..].
Qed.

(** Blocks that are not text leave [content] as it is. *)
Lemma scan_blocks_no_text dumps blocks tool_calls content :
  forallb (λ b, negb (is_text b)) blocks = true →
  (scan_blocks dumps blocks tool_calls content).2 = content.
Proof.
  revert tool_calls. induction blocks as [|[t|i n v|ty] blocks IH];
    intros tool_calls; simpl; [done | done | apply IH ..].
Qed.

(** Blocks that are not tool uses leave [tool_calls] as it is. *)
Lemma scan_blocks_no_tool_use dumps blocks tool_calls content :
  forallb (λ b, negb (is_tool_use b)) blocks = true →
  (scan_blocks dumps blocks tool_calls content).1 = tool_calls.
Proof.
  revert content. induction blocks as [|[t|i n v|ty] blocks IH];
    intros content; simpl; [done | apply IH | done | apply IH].
Qed.

Lemma anthropic_result_content dumps blocks :
  resp_content (anthropic_result dumps blocks)
  = Some (scan_blocks dumps blocks [] EmptyString).2.
Proof.
  unfold anthropic_result. by destruct (scan_blocks _ _ _ _).
Qed.

Lemma anthropic_result_tool_calls dumps blocks :
  resp_tool_calls (anthropic_result dumps blocks)
  = match (scan_blocks dumps blocks [] EmptyString).1 with
    | [] => None
    | calls => Some calls
    end.
Proof.
  unfold anthropic_result. by destruct (scan_blocks _ _ _ _) as [[|??] ?].
Qed.

(** C10. In the Anthropic adapter the returned text is the text of the
    last text block of the response: of two or more text blocks the
    earlier ones are overwritten, not joined.  When the response holds
    no [tool_use] block the returned [tool_calls] is null, and when it
    holds no text block the returned text is the empty string.  The
    result of [_call_anthropic] is built from the blocks the client
    returns in this way. *)
Theorem anthropic_last_text_wins (dumps : PyVal → string) :
  (∀ before last_text after,
     forallb (λ b, negb (is_text b)) after = true →
     resp_content
       (anthropic_result dumps (before ++ TextBlock last_text :: after))
     = Some last_text)
  ∧ (∀ blocks,
       forallb (λ b, negb (is_tool_use b)) blocks = true →
       resp_tool_calls (anthropic_result dumps blocks) = None)
  ∧ (∀ blocks,
       forallb (λ b, negb (is_text b)) blocks = true →
       resp_content (anthropic_result dumps blocks) = Some EmptyString)
  ∧ (∀ (W : Type) (ext : Oracles W) settings self messages st blocks w',
       json_dumps ext = dumps →
       anthropic_create ext (model self)
         (split_system messages (Some EmptyString) []).1
         (split_system messages (Some EmptyString) []).2
         (anthropic_tools (TOOL_DEFINITIONS settings)) (world st)
       = (inr blocks, w') →
       (_call_anthropic ext settings self messages st).1
       = inr (anthropic_result dumps blocks)).
Proof.
  split_and!.
  - intros before last_text after Hafter.
    rewrite anthropic_result_content, scan_blocks_app.
    destruct (scan_blocks dumps before [] EmptyString) as [calls c]. simpl.
    by rewrite scan_blocks_no_text.
  - intros blocks Hnone. rewrite anthropic_result_tool_calls.
    by rewrite scan_blocks_no_tool_use.
  - intros blocks Hnone. rewrite anthropic_result_content.
    by rewrite scan_blocks_no_text.
  - intros W ext settings self messages st blocks w' <- Hcreate.
    unfold _call_anthropic.
    destruct (split_system messages (Some EmptyString) []) as [sys msgs].
    simpl in Hcreate. unfold bind, call. rewrite Hcreate. done.
Qed.

(** Two text blocks around a tool use: the second text is returned. *)
Lemma anthropic_last_text_wins_witness :
  resp_content
    (anthropic_result (λ _, "{}")
       ([TextBlock "first"; ToolUseBlock "toolu_1" "send_email" (PDict [])]
        ++ TextBlock "second" :: [OtherBlock "thinking"]))
  = Some "second".
Proof.
  apply (proj1 (anthropic_last_text_wins (λ _, "{}"))). reflexivity.
Defined.

(** ** The agent loop *)

Section AgentProperties.

Context {W : Type}.
Variable ext : Oracles W.
Variable settings : Settings.
Variable self : AgentService.

Implicit Types st : RunState W.

Lemma grows_aligned_refl st st' :
  tool_calls_made st' = tool_calls_made st →
  tool_results st' = tool_results st →
  grows_aligned st st'.
Proof. intros H1 H2. exists [], []. by rewrite !app_nil_r. Qed.

Lemma grows_aligned_trans st1 st2 st3 :
  grows_aligned st1 st2 → grows_aligned st2 st3 → grows_aligned st1 st3.
Proof.
  intros (c1 & r1 & Hc1 & Hr1 & Hk1) (c2 & r2 & Hc2 & Hr2 & Hk2).
  exists (c1 ++ c2), (r1 ++ r2).
  rewrite Hc2, Hc1, Hr2, Hr1, !app_assoc, !fmap_app, Hk1, Hk2. done.
Qed.

Lemma grows_aligned_lagging st st' :
  grows_aligned st st' → grows_lagging st st'.
Proof.
  intros (c & r & Hc & Hr & Hk). exists c, r. split_and!; try done.
  - by rewrite Hk.
  - apply (f_equal length) in Hk. rewrite !length_fmap in Hk. lia.
Qed.

Lemma grows_aligned_then_lagging st1 st2 st3 :
  grows_aligned st1 st2 → grows_lagging st2 st3 → grows_lagging st1 st3.
Proof.
  intros (c1 & r1 & Hc1 & Hr1 & Hk1) (c2 & r2 & Hc2 & Hr2 & Hk2 & Hlen).
  exists (c1 ++ c2), (r1 ++ r2).
  rewrite Hc2, Hc1, Hr2, Hr1, !app_assoc, !fmap_app, Hk1.
  split_and!; try done.
  - by apply prefix_app.
  - apply (f_equal length) in Hk1. rewrite !length_fmap in Hk1.
    rewrite !length_app. lia.
Qed.

(** *** Steps of the monad *)

Lemma bind_inv {A B} (m : M W A) (k : A → M W B) st r st' :
  bind m k st = (r, st') →
  (∃ a st1, m st = (inr a, st1) ∧ k a st1 = (r, st'))
  ∨ (∃ e, m st = (inl e, st') ∧ r = inl e).
Proof.
  unfold bind. destruct (m st) as [[e|a] st1].
  - intros [= <- <-]. right. by exists e.
  - intros H. left. by exists a, st1.
Qed.

Lemma call_inv {A} (f : W → (Exn + A) * W) st r st' :
  call f st = (r, st') →
  f (world st) = (r, world st')
  ∧ tool_calls_made st' = tool_calls_made st
  ∧ tool_results st' = tool_results st
  ∧ calling_entered st' = calling_entered st.
Proof.
  unfold call. destruct (f (world st)) as [r0 w]. by intros [= <- <-].
Qed.

Lemma read_inv {A} (f : W → A * W) st r st' :
  read f st = (r, st') →
  (∃ a, r = inr a ∧ f (world st) = (a, world st'))
  ∧ tool_calls_made st' = tool_calls_made st
  ∧ tool_results st' = tool_results st
  ∧ calling_entered st' = calling_entered st.
Proof.
  unfold read. intros (Hf & ? & ? & ?)%call_inv. split_and!; try done.
  destruct (f (world st)) as [a w]. simplify_eq. by exists a.
Qed.

(** One entry into CALLING: the counter goes up by one whatever the
    provider does, and the two lists are not touched. *)
Lemma call_llm_inv messages st r st' :
  _call_llm_with_tools ext settings self messages st = (r, st') →
  calling_entered st' = S (calling_entered st)
  ∧ tool_calls_made st' = tool_calls_made st
  ∧ tool_results st' = tool_results st.
Proof.
  unfold _call_llm_with_tools. intros Hrun.
  apply bind_inv in Hrun as [(u & st1 & Henter & Hrun)|(e & Henter & _)];
    unfold enter_calling in Henter; simplify_eq.
  destruct (decide (provider self = "openai")) as [_|_];
    [|destruct (decide (provider self = "anthropic")) as [_|_]].
  - unfold _call_openai in Hrun.
    apply bind_inv in Hrun as [(choices & st2 & Hc & Hk)|(e & Hc & _)];
      apply call_inv in Hc as (_ & ? & ? & ?); simpl in *; [|done].
    destruct choices; unfold ret, raise in Hk; simplify_eq; done.
  - unfold _call_anthropic in Hrun.
    destruct (split_system _ _ _) as [sys msgs].
    apply bind_inv in Hrun as [(blocks & st2 & Hc & Hk)|(e & Hc & _)];
      apply call_inv in Hc as (_ & ? & ? & ?); simpl in *; [|done].
    unfold ret in Hk. simplify_eq. done.
  - unfold raise in Hrun. simplify_eq. done.
Qed.

(** *** The loop over the tool calls of one turn *)

(** The counter is untouched.  When the loop ends normally every
    invocation has its outcome; when it raises, at most the last
    invocation has none, and it has one unless the dispatch itself
    raised (the registry raised, or the arguments were no mapping). *)
Lemma run_tool_calls_inv calls messages st r st' :
  run_tool_calls ext calls messages st = (r, st') →
  calling_entered st' = calling_entered st
  ∧ match r with
    | inr _ => grows_aligned st st'
    | inl _ =>
        grows_lagging st st'
        ∧ (registry_returns ext →
           Forall (mapping_if_decoded ext) calls → grows_aligned st st')
    end.
Proof.
  revert messages st. induction calls as [|tool_call rest IH];
    intros messages st Hrun.
  - injection Hrun as <- <-. split; [done|]. by apply grows_aligned_refl.
  - simpl in Hrun.
    pose (inv := λ tool_args,
            {| tool_name := fn_name (tc_function tool_call);
               arguments := tool_args; call_id := tc_id tool_call |}).
    apply bind_inv in Hrun
      as [(tool_args & st1 & Hloads & Hrun)|(e & Hloads & ->)];
      unfold pure_or_raise in Hloads; injection Hloads as Hloads <-.
    2: { split; [done|]. split; [|intros _ _]; [apply grows_aligned_lagging|];
         by apply grows_aligned_refl. }
    apply bind_inv in Hrun as [(u & st2 & Hrec & Hrun)|(e & Hrec & _)];
      unfold record_call in Hrec; [|done]. injection Hrec as <- <-.
    apply bind_inv in Hrun as [(resp & st3 & Hdisp & Hrun)|(e & Hdisp & ->)].
    + (* the dispatch returned [resp] *)
      apply bind_inv in Hrun as [(u' & st4 & Hres & Hrun)|(e & Hres & _)];
        unfold record_result in Hres; [|done]. injection Hres as <- <-.
      assert (Hd : tool_calls_made st3 = tool_calls_made st ++ [inv tool_args]
                   ∧ tool_results st3 = tool_results st
                   ∧ calling_entered st3 = calling_entered st).
      { unfold dispatch_tool in Hdisp. destruct tool_args; try done.
        apply call_inv in Hdisp as (_ & ? & ? & ?). done. }
      destruct Hd as (Hc3 & Hr3 & Hn3).
      apply IH in Hrun as [Hn Hgrow]. simpl in Hn. split; [congruence|].
      match type of Hgrow with
      | match _ with inl _ => _ | inr _ => grows_aligned ?s _ end =>
          assert (Hstep : grows_aligned st s)
      end.
      { eexists [_], [_]. simpl. rewrite Hc3, Hr3. split_and!; done. }
      destruct r as [e|msgs].
      * destruct Hgrow as [Hlag Hal]. split.
        -- by eapply grows_aligned_then_lagging.
        -- intros Hreg [_ Hrest]%Forall_cons.
           eapply grows_aligned_trans; [done|]. by apply Hal.
      * by eapply grows_aligned_trans.
    + (* the dispatch raised *)
      assert (Hd : tool_calls_made st' = tool_calls_made st ++ [inv tool_args]
                   ∧ tool_results st' = tool_results st
                   ∧ calling_entered st' = calling_entered st
                   ∧ (registry_returns ext →
                      mapping_if_decoded ext tool_call → False)).
      { unfold dispatch_tool in Hdisp.
        destruct tool_args as [| | | | |d];
          try (injection Hdisp as _ <-; split_and!; try done;
               intros _ Hmap; by destruct (Hmap _ Hloads)).
        apply call_inv in Hdisp as (Hexec & ? & ? & ?).
        split_and!; try done.
        intros Hreg _.
        destruct (Hreg (fn_name (tc_function tool_call)) d (world st))
          as (? & ? & Hok).
        simpl in Hexec. congruence. }
      destruct Hd as (Hc & Hr & Hn & Hno). split; [done|]. split.
      * exists [inv tool_args], []. rewrite Hc, Hr, app_nil_r.
        split_and!; try done. apply prefix_nil.
      * intros Hreg [Hhead _]%Forall_cons. by destruct Hno.
Qed.

(** *** The [while] loop *)

Lemma agent_loop_S fuel max_iterations iteration messages :
  agent_loop ext settings self (S fuel) max_iterations iteration messages
  = if (iteration <? max_iterations)%Z then
      bind (_call_llm_with_tools ext settings self messages) (λ response,
        match resp_tool_calls response with
        | Some (tc :: tcs) =>
            bind (run_tool_calls ext (tc :: tcs) messages) (λ messages,
              agent_loop ext settings self fuel max_iterations
                (iteration + 1)%Z messages)
        | _ => ret ((iteration + 1)%Z, resp_content response)
        end)
    else ret (iteration, None).
Proof. reflexivity. Qed.

(** Enough fuel is as good as any: the result of the loop does not
    depend on the fuel once it covers [max_iterations - iteration]. *)
Lemma agent_loop_fuel fuel1 fuel2 max_iterations iteration messages st :
  Z.to_nat (max_iterations - iteration) ≤ fuel1 →
  Z.to_nat (max_iterations - iteration) ≤ fuel2 →
  agent_loop ext settings self fuel1 max_iterations iteration messages st
  = agent_loop ext settings self fuel2 max_iterations iteration messages st.
Proof.
  revert fuel2 iteration messages st.
  induction fuel1 as [|fuel1 IH]; intros fuel2 iteration messages st H1 H2.
  - destruct fuel2 as [|fuel2]; [done|]. rewrite agent_loop_S.
    destruct (Z.ltb_spec iteration max_iterations); [lia|done].
  - destruct fuel2 as [|fuel2]; rewrite !agent_loop_S;
      destruct (Z.ltb_spec iteration max_iterations); try done; try lia.
    unfold bind.
    destruct (_call_llm_with_tools _ _ _ _ _) as [[e|response] st1]; [done|].
    destruct (resp_tool_calls response) as [[|tc tcs]|]; try done.
    destruct (run_tool_calls _ _ _ _) as [[e|messages'] st2]; [done|].
    apply IH; lia.
Qed.

(** The loop enters CALLING at most [max_iterations - iteration] times.
    When it ends normally [iteration] has grown by the number of
    entries, stays within the bound, and every invocation has its
    outcome. *)
Lemma agent_loop_inv fuel max_iterations iteration messages st r st' :
  agent_loop ext settings self fuel max_iterations iteration messages st
    = (r, st') →
  calling_entered st ≤ calling_entered st'
  ∧ calling_entered st' - calling_entered st
    ≤ Z.to_nat (max_iterations - iteration)
  ∧ match r with
    | inr (iteration', _) =>
        grows_aligned st st'
        ∧ iteration'
          = (iteration
             + Z.of_nat (calling_entered st' - calling_entered st))%Z
        ∧ (iteration' ≤ Z.max iteration max_iterations)%Z
    | inl _ =>
        grows_lagging st st'
        ∧ (registry_returns ext → arguments_are_mappings ext settings self → grows_aligned st st')
        ∧ calling_entered st < calling_entered st'
    end.
Proof.
  revert iteration messages st.
  induction fuel as [|fuel IH]; intros iteration messages st Hrun.
  - injection Hrun as <- <-. split_and!; try lia.
    by apply grows_aligned_refl.
  - rewrite agent_loop_S in Hrun.
    destruct (Z.ltb_spec iteration max_iterations) as [Hlt|Hge].
    2: { injection Hrun as <- <-. split_and!; try lia.
         by apply grows_aligned_refl. }
    apply bind_inv in Hrun as [(response & st1 & Hllm & Hrun)|(e & Hllm & ->)];
      pose proof (call_llm_inv _ _ _ _ Hllm) as (Hn1 & Hc1 & Hr1).
    2: { split_and!; try lia.
         - apply grows_aligned_lagging. by apply grows_aligned_refl.
         - intros _ _. by apply grows_aligned_refl. }
    assert (Hstep1 : grows_aligned st st1) by by apply grows_aligned_refl.
    destruct (resp_tool_calls response) as [[|tc tcs]|] eqn:Hcalls.
    1, 3: injection Hrun as <- <-; split_and!; try done; lia.
    assert (Hemit : ∀ x, x ∈ tc :: tcs → emitted ext settings self x).
    { intros x Hx. by exists messages, st, response, st1, (tc :: tcs). }
    apply bind_inv in Hrun as [(messages' & st2 & Htools & Hrun)|(e & Htools & ->)];
      apply run_tool_calls_inv in Htools as [Hn2 Hgrow2].
    2: { destruct Hgrow2 as [Hlag Hal]. split_and!; try lia.
         - by eapply grows_aligned_then_lagging.
         - intros Hreg Hmap. eapply grows_aligned_trans; [done|].
           apply Hal; [done|]. apply Forall_forall. intros x Hx.
           by apply Hmap, Hemit. }
    apply IH in Hrun as (Hle & Hbound & Hrest).
    assert (Hstep2 : grows_aligned st st2) by by eapply grows_aligned_trans.
    split_and!; try lia.
    destruct r as [e|[iteration' final]].
    + destruct Hrest as (Hlag & Hal & Hlt'). split_and!; try lia.
      * by eapply grows_aligned_then_lagging.
      * intros ??. eapply grows_aligned_trans; [done|]. by apply Hal.
    + destruct Hrest as (Hal & -> & Hmax). split_and!; try lia.
      by eapply grows_aligned_trans.
Qed.

Lemma run_tool_calls_returns calls messages st :
  Forall (decodes_to_mapping ext) calls → registry_returns ext →
  ∃ messages' st', run_tool_calls ext calls messages st = (inr messages', st').
Proof.
  intros Hdec Hreg. revert messages st.
  induction calls as [|tool_call rest IH]; intros messages st.
  - by eexists _, _.
  - apply Forall_cons in Hdec as [[d Hd] Hrest].
    simpl. unfold bind at 1, pure_or_raise. rewrite Hd.
    unfold bind at 1, record_call. unfold bind at 1. simpl. unfold call.
    simpl.
    destruct (Hreg (fn_name (tc_function tool_call)) d (world st))
      as (resp & w' & ->).
    unfold bind at 1, record_result. by apply IH.
Qed.

(** A provider that never stops asking for tools is cut off by the
    bound: the loop ends normally after [max_iterations - iteration]
    entries, with no final response. *)
Lemma agent_loop_exhausts fuel max_iterations iteration messages st :
  provider_always_calls_tools ext settings self → arguments_decode ext settings self → registry_returns ext →
  Z.to_nat (max_iterations - iteration) ≤ fuel →
  ∃ st',
    agent_loop ext settings self fuel max_iterations iteration messages st
      = (inr (Z.max iteration max_iterations, None), st')
    ∧ calling_entered st'
      = calling_entered st + Z.to_nat (max_iterations - iteration).
Proof.
  intros Hprov Hdec Hreg. revert iteration messages st.
  induction fuel as [|fuel IH]; intros iteration messages st Hfuel.
  - exists st. simpl. unfold ret. split; [|lia]. do 3 f_equal. lia.
  - rewrite agent_loop_S.
    destruct (Z.ltb_spec iteration max_iterations) as [Hlt|Hge].
    2: { exists st. unfold ret. split; [|lia]. do 3 f_equal. lia. }
    destruct (Hprov messages st) as (response & st1 & tc & tcs & Hllm & Htc).
    assert (Hcalls : Forall (decodes_to_mapping ext) (tc :: tcs)).
    { apply Forall_forall. intros x Hx. apply Hdec.
      by exists messages, st, response, st1, (tc :: tcs). }
    unfold bind at 1. rewrite Hllm, Htc.
    apply call_llm_inv in Hllm as (Hn1 & _ & _).
    destruct (run_tool_calls_returns (tc :: tcs) messages st1 Hcalls Hreg)
      as (messages' & st2 & Htools).
    unfold bind at 1. rewrite Htools.
    apply run_tool_calls_inv in Htools as [Hn2 _].
    destruct (IH (iteration + 1)%Z messages' st2) as (st' & -> & Hn); [lia|].
    exists st'. split; [|lia]. do 3 f_equal. lia.
Qed.

(** *** [process_query] *)

(** A run, step by step: the clock, the context assembler, the prompt
    builder, the loop, the clock again, and the dict returned on
    either exit of the loop. *)
Lemma process_query_run_unfold query chat_history user_id top_k
    max_iterations w :
  ∃ start_time w0 rag_context w1 messages w2 r st now w3,
    time_time ext w = (start_time, w0)
    ∧ _get_rag_context ext query top_k w0 = (rag_context, w1)
    ∧ _build_initial_messages ext settings query rag_context chat_history w1
      = (messages, w2)
    ∧ agent_loop ext settings self (Z.to_nat max_iterations) max_iterations 0
        messages (initial_state w2) = (r, st)
    ∧ time_time ext (world st) = (now, w3)
    ∧ process_query_run ext settings self query chat_history user_id top_k
        max_iterations w
      = (match r with
         | inr (iteration, final_response) =>
             success_result rag_context iteration final_response
               (_extract_citations
                  (PyStr.or_else final_response EmptyString) rag_context)
               (set_world st w3) start_time now
         | inl e => error_result e st start_time now
         end, set_world st w3).
Proof.
  unfold process_query_run, try_body.
  destruct (time_time ext w) as [start_time w0].
  destruct (_get_rag_context ext query top_k w0) as [rag_context w1] eqn:Hrag.
  destruct (_build_initial_messages ext settings query rag_context
              chat_history w1) as [messages w2] eqn:Hmsg.
  destruct (agent_loop ext settings self (Z.to_nat max_iterations)
              max_iterations 0 messages (initial_state w2)) as [r st] eqn:Hloop.
  destruct (time_time ext (world st)) as [now w3] eqn:Hnow.
  exists start_time, w0, rag_context, w1, messages, w2, r, st, now, w3.
  split_and!; try done.
  unfold bind at 1, read at 1, call. simpl. rewrite Hrag.
  unfold bind at 1, read at 1, call. simpl. rewrite Hmsg.
  unfold bind at 1.
  change (set_world (set_world _ w1) w2) with (initial_state w2).
  rewrite Hloop.
  destruct r as [e|[iteration final_response]].
  - by rewrite Hnow.
  - unfold bind at 1, read at 1, call. rewrite Hnow. done.
Qed.

End AgentProperties.

(** ** The run as a whole *)

Lemma or_else_nonempty (x : option string) (d : string) :
  d ≠ EmptyString → PyStr.or_else x d ≠ EmptyString.
Proof. intros Hd. destruct x as [[|c s]|]; simpl; done. Qed.

Lemma error_text_nonempty (msg : string) :
  error_prefix +:+ msg ≠ EmptyString.
Proof. done. Qed.

Lemma keys_Forall2 (calls : list ToolInvocation) (results : list ToolOutcome) :
  key_of_result <$> results = key_of_call <$> calls →
  Forall2 (λ inv out, out_call_id out = call_id inv
                      ∧ out_tool_name out = tool_name inv) calls results.
Proof.
  revert results. induction calls as [|inv calls IH]; intros [|out results];
    simpl; try done.
  intros [= H1 H2 Hrest]. constructor; [done|]. by apply IH.
Qed.

(** In a scripted scenario, a tool call of the provider carries the
    argument text of a tool call of the script. *)
Lemma scripted_emitted (sc : Demo.Scenario) (tool_call : ToolCall) :
  emitted (Demo.oracles sc) Demo.settings Demo.service tool_call →
  ∃ n msg rest calls scripted,
    Demo.sc_provider sc n = inr (msg :: rest)
    ∧ oa_tool_calls msg = Some calls
    ∧ scripted ∈ calls
    ∧ fn_arguments (tc_function tool_call)
      = fn_arguments (tc_function scripted).
Proof.
  intros (messages & st & response & st' & calls & Hllm & Hcalls & Hin).
  unfold _call_llm_with_tools, bind, enter_calling in Hllm.
  destruct (decide (provider Demo.service = "openai")) as [_|Hne]; [|done].
  unfold _call_openai, bind, call in Hllm. simpl in Hllm.
  destruct (Demo.sc_provider sc (world st)) as [e|[|msg rest]] eqn:Hscript;
    try done.
  injection Hllm as <- <-. unfold openai_result in Hcalls.
  cbn [resp_tool_calls] in Hcalls.
  destruct (oa_tool_calls msg) as [[|c cs]|] eqn:Hmsg; try done.
  injection Hcalls as <-.
  apply elem_of_cons in Hin as [->|Hin].
  - exists (world st), msg, rest, (c :: cs), c. split_and!; try done.
    apply list_elem_of_here.
  - apply (list_elem_of_fmap_1 _ cs) in Hin as (scripted & -> & Hin').
    exists (world st), msg, rest, (c :: cs), scripted. split_and!; try done.
    by apply list_elem_of_further.
Qed.

(** C1, as amended.  For every query, history, [top_k] and
    [max_iterations], [process_query] returns: it enters the CALLING
    state at most [max(max_iterations, 0)] times and [debug.iterations]
    is at most [max(max_iterations, 0)], which for a budget of zero or
    more is [max_iterations]; the text returned is never empty.  When
    the provider asks for tools on every turn, its argument texts decode
    to mappings and the registry returns for every dispatch, the run
    ends at the bound, after exactly that many entries, with the generic
    fallback text and no error. *)
Theorem process_query_bounded {W : Type} (ext : Oracles W)
    (settings : Settings) (self : AgentService) (query : string)
    (chat_history : option (list ChatMessage)) (user_id : option string)
    (top_k max_iterations : Z) (w : W) :
  let run :=
    process_query_run ext settings self query chat_history user_id top_k
      max_iterations w in
  process_query ext settings self query chat_history user_id top_k
    max_iterations w = (run.1, world run.2)
  ∧ calling_entered run.2 ≤ Z.to_nat max_iterations
  ∧ (iterations (res_debug run.1) ≤ Z.max 0 max_iterations)%Z
  ∧ ((0 ≤ max_iterations)%Z →
     (Z.of_nat (calling_entered run.2) ≤ max_iterations)%Z
     ∧ (iterations (res_debug run.1) ≤ max_iterations)%Z)
  ∧ res_text run.1 ≠ EmptyString
  ∧ (provider_always_calls_tools ext settings self →
     arguments_decode ext settings self → registry_returns ext →
     res_text run.1 = fallback_text
     ∧ dbg_error (res_debug run.1) = None
     ∧ iterations (res_debug run.1) = Z.max 0 max_iterations
     ∧ calling_entered run.2 = Z.to_nat max_iterations).
Proof.
  intros run. subst run.
  destruct (process_query_run_unfold ext settings self query chat_history
              user_id top_k max_iterations w)
    as (start_time & w0 & rag & w1 & messages & w2 & r & st & now & w3
        & Hclock & Hrag & Hmsg & Hloop & Hnow & Hrun).
  assert (Hdef : process_query ext settings self query chat_history user_id
                   top_k max_iterations w
                 = ((process_query_run ext settings self query chat_history
                       user_id top_k max_iterations w).1,
                    world (process_query_run ext settings self query
                             chat_history user_id top_k max_iterations w).2)).
  { unfold process_query. by destruct (process_query_run _ _ _ _ _ _ _ _ _). }
  rewrite Hdef, Hrun. simpl.
  pose proof (agent_loop_inv ext settings self _ _ _ _ _ _ _ Hloop)
    as (Hle & Hbound & Hr).
  simpl in Hle, Hbound. rewrite Z.sub_0_r in Hbound.
  assert (Hcount : calling_entered st ≤ Z.to_nat max_iterations) by lia.
  assert (Hiter : (iterations
                     (res_debug
                        match r with
                        | inl e => error_result e st start_time now
                        | inr (iteration, final_response) =>
                            success_result rag iteration final_response
                              (_extract_citations
                                 (PyStr.or_else final_response EmptyString) rag)
                              (set_world st w3) start_time now
                        end) ≤ Z.max 0 max_iterations)%Z).
  { destruct r as [e|[iteration final]]; simpl; [lia|].
    by destruct Hr as (_ & _ & ?). }
  split_and!; try done.
  - intros Hpos. split; lia.
  - destruct r as [e|[iteration final]]; simpl.
    + apply error_text_nonempty.
    + by apply or_else_nonempty.
  - intros Hprov Hdec Hreg.
    destruct (agent_loop_exhausts ext settings self (Z.to_nat max_iterations)
                max_iterations 0 messages (initial_state w2) Hprov Hdec Hreg)
      as (st' & Hloop' & Hn); [lia|].
    rewrite Hloop in Hloop'. injection Hloop' as -> ->. simpl in *.
    split_and!; try done. rewrite Hn. f_equal. lia.
Qed.

(** A provider that asks for a tool on every turn, with a budget of
    three: the run ends with the fallback text after three entries. *)
Lemma process_query_bounded_witness :
  res_text (Demo.run Demo.always_tools "Remind everyone" 3).1 = fallback_text
  ∧ dbg_error (res_debug (Demo.run Demo.always_tools "Remind everyone" 3).1)
    = None
  ∧ iterations (res_debug (Demo.run Demo.always_tools "Remind everyone" 3).1)
    = Z.max 0 3
  ∧ calling_entered (Demo.run Demo.always_tools "Remind everyone" 3).2
    = Z.to_nat 3.
Proof.
  apply (process_query_bounded (Demo.oracles Demo.always_tools) Demo.settings
           Demo.service "Remind everyone" None None 6 3 0).
  - intros messages st. eexists _, _, _, _. split; reflexivity.
  - intros tool_call (n & msg & rest & calls & scripted & Hscript & Hcalls
                      & Hin & Hargs)%scripted_emitted.
    simpl in Hscript. injection Hscript as <- <-.
    simpl in Hcalls. injection Hcalls as <-.
    apply list_elem_of_singleton in Hin as ->.
    unfold decodes_to_mapping. rewrite Hargs. by eexists.
  - intros name kwargs w. by eexists _, _.
Defined.

(** Two runs against C1 as the specification has it.  With a budget of [-1] the
    loop is not entered and [debug.iterations] is 0, above the budget.
    With a provider that asks for a tool on every turn, but with an
    argument text that is a JSON array, the first dispatch raises: the
    run ends in the error handler after one entry, short of the bound
    of 5 and without the fallback text. *)
Lemma iteration_bound_counterexample :
  iterations (res_debug (Demo.run Demo.answers "What is your return policy?"
                           (-1)).1) = 0%Z
  ∧ ¬ (iterations (res_debug (Demo.run Demo.answers
                                "What is your return policy?" (-1)).1)
       ≤ -1)%Z
  ∧ (∀ n, ∃ id name args,
       Demo.sc_provider Demo.array_arguments n
       = inr (Demo.tool_turn id name args))
  ∧ calling_entered (Demo.run Demo.array_arguments "Email the team" 5).2 = 1
  ∧ res_text (Demo.run Demo.array_arguments "Email the team" 5).1
    ≠ fallback_text.
Proof.
  split_and!; [reflexivity | by vm_compute | | reflexivity | by vm_compute].
  intros n. by eexists _, _, _.
Qed.

(** C2, as amended.  For every run in which the registry returns a
    result for every dispatch and the argument texts of the provider's
    tool calls, where they decode, decode to mappings, the result has as
    many [tool_results] as [tool_calls], and at every position the
    outcome carries the [call_id] and the [tool_name] of the invocation
    at that position. *)
Theorem tool_results_match_calls {W : Type} (ext : Oracles W)
    (settings : Settings) (self : AgentService) (query : string)
    (chat_history : option (list ChatMessage)) (user_id : option string)
    (top_k max_iterations : Z) (w : W) :
  registry_returns ext →
  arguments_are_mappings ext settings self →
  let res :=
    (process_query_run ext settings self query chat_history user_id top_k
       max_iterations w).1 in
  length (res_tool_calls res) = length (res_tool_results res)
  ∧ Forall2 (λ inv out, out_call_id out = call_id inv
                        ∧ out_tool_name out = tool_name inv)
      (res_tool_calls res) (res_tool_results res).
Proof.
  intros Hreg Hmap res. subst res.
  destruct (process_query_run_unfold ext settings self query chat_history
              user_id top_k max_iterations w)
    as (start_time & w0 & rag & w1 & messages & w2 & r & st & now & w3
        & Hclock & Hrag & Hmsg & Hloop & Hnow & Hrun).
  rewrite Hrun. simpl.
  pose proof (agent_loop_inv ext settings self _ _ _ _ _ _ _ Hloop)
    as (_ & _ & Hr).
  assert (Hal : grows_aligned (initial_state w2) st).
  { destruct r as [e|[iteration final]].
    - destruct Hr as (_ & Hal & _). by apply Hal.
    - by destruct Hr as (Hal & _). }
  destruct Hal as (calls & results & Hc & Hres & Hkeys). simpl in Hc, Hres.
  assert (Hboth : length calls = length results
                  ∧ Forall2 (λ inv out, out_call_id out = call_id inv
                                        ∧ out_tool_name out = tool_name inv)
                      calls results).
  { split; [|by apply keys_Forall2].
    apply (f_equal length) in Hkeys. rewrite !length_fmap in Hkeys. done. }
  destruct r as [e|[iteration final]]; simpl; by rewrite Hc, Hres.
Qed.

(** One tool call, answered by the registry, then text: one invocation
    and one outcome, with the same [call_id] and [tool_name]. *)
Lemma tool_results_match_calls_witness :
  length (res_tool_calls (Demo.run Demo.one_tool "Schedule a call" 5).1)
  = length (res_tool_results (Demo.run Demo.one_tool "Schedule a call" 5).1)
  ∧ Forall2 (λ inv out, out_call_id out = call_id inv
                        ∧ out_tool_name out = tool_name inv)
      (res_tool_calls (Demo.run Demo.one_tool "Schedule a call" 5).1)
      (res_tool_results (Demo.run Demo.one_tool "Schedule a call" 5).1).
Proof.
  apply (tool_results_match_calls (Demo.oracles Demo.one_tool) Demo.settings
           Demo.service "Schedule a call" None None 6 5 0).
  - intros name kwargs w. by eexists _, _.
  - intros tool_call (n & msg & rest & calls & scripted & Hscript & Hcalls
                      & Hin & Hargs)%scripted_emitted v.
    rewrite Hargs. simpl in Hscript.
    destruct n as [|n]; injection Hscript as <- <-; simpl in Hcalls; [|done].
    injection Hcalls as <-. apply list_elem_of_singleton in Hin as ->.
    intros [= <-]. by eexists.
Defined.

(** The provider asks for [send_email] with the argument text [[]]: the
    registry is never entered (so it never raises), the invocation is
    recorded, and no outcome is. *)
Lemma array_arguments_counterexample :
  registry_returns (Demo.oracles Demo.array_arguments)
  ∧ length (res_tool_calls
              (Demo.run Demo.array_arguments "Email the team" 5).1) = 1
  ∧ length (res_tool_results
              (Demo.run Demo.array_arguments "Email the team" 5).1) = 0
  ∧ length (res_tool_calls
              (Demo.run Demo.array_arguments "Email the team" 5).1)
    ≠ length (res_tool_results
                (Demo.run Demo.array_arguments "Email the team" 5).1).
Proof.
  split_and!; [|reflexivity|reflexivity|by vm_compute].
  intros name kwargs w. by eexists _, _.
Qed.

(** C3, as amended.  On a run that ends through the normal return,
    [debug.iterations] is the number of entries into the CALLING state
    (of calls to [_call_llm_with_tools]).  On a run that ends in the
    error handler [debug.iterations] is 0, whatever that number is. *)
Theorem iterations_count {W : Type} (ext : Oracles W)
    (settings : Settings) (self : AgentService) (query : string)
    (chat_history : option (list ChatMessage)) (user_id : option string)
    (top_k max_iterations : Z) (w : W) :
  let run :=
    process_query_run ext settings self query chat_history user_id top_k
      max_iterations w in
  iterations (res_debug run.1)
  = match dbg_error (res_debug run.1) with
    | None => Z.of_nat (calling_entered run.2)
    | Some _ => 0%Z
    end.
Proof.
  intros run. subst run.
  destruct (process_query_run_unfold ext settings self query chat_history
              user_id top_k max_iterations w)
    as (start_time & w0 & rag & w1 & messages & w2 & r & st & now & w3
        & Hclock & Hrag & Hmsg & Hloop & Hnow & Hrun).
  rewrite Hrun. simpl.
  pose proof (agent_loop_inv ext settings self _ _ _ _ _ _ _ Hloop)
    as (_ & _ & Hr).
  destruct r as [e|[iteration final]]; simpl; [done|].
  destruct Hr as (_ & -> & _). simpl. lia.
Qed.

(** A first turn that runs a tool, then a provider call that fails: the
    CALLING state was entered twice, one provider call completed, and
    [debug.iterations] is 0. *)
Lemma error_path_iterations_counterexample :
  calling_entered (Demo.run Demo.provider_fails_second "Email the team" 5).2
  = 2
  ∧ world (Demo.run Demo.provider_fails_second "Email the team" 5).2 = 2
  ∧ length (res_tool_results
              (Demo.run Demo.provider_fails_second "Email the team" 5).1) = 1
  ∧ dbg_error (res_debug
                 (Demo.run Demo.provider_fails_second "Email the team" 5).1)
    = Some "Connection error."
  ∧ iterations (res_debug
                  (Demo.run Demo.provider_fails_second "Email the team" 5).1)
    = 0%Z
  ∧ iterations (res_debug
                  (Demo.run Demo.provider_fails_second "Email the team" 5).1)
    ≠ Z.of_nat
        (calling_entered
           (Demo.run Demo.provider_fails_second "Email the team" 5).2).
Proof. split_and!; try reflexivity. by vm_compute. Qed.



(** C7. When the agent loop, entered after context retrieval and prompt
    building, raises an exception [e] in the state [st], [process_query]
    raises nothing: it returns a result whose text is the error text
    ending in [str(e)], whose [tool_calls] and [tool_results] are the
    invocations and the outcomes recorded in [st] (the outcomes matching
    the invocations from the first on, the last invocation at most
    without one), whose citations are empty, and whose [debug.error] is
    [str(e)]. *)
Theorem loop_fault_gives_error_result {W : Type} (ext : Oracles W)
    (settings : Settings) (self : AgentService) (query : string)
    (chat_history : option (list ChatMessage)) (user_id : option string)
    (top_k max_iterations : Z) (w : W) (e : Exn) (st : RunState W) :
  let w0 := (time_time ext w).2 in
  let retrieved := _get_rag_context ext query top_k w0 in
  let built :=
    _build_initial_messages ext settings query retrieved.1 chat_history
      retrieved.2 in
  agent_loop ext settings self (Z.to_nat max_iterations) max_iterations 0
    built.1 (initial_state built.2) = (inl e, st) →
  let res :=
    (process_query_run ext settings self query chat_history user_id top_k
       max_iterations w).1 in
  process_query ext settings self query chat_history user_id top_k
    max_iterations w = (res, (time_time ext (world st)).2)
  ∧ res_text res = error_prefix +:+ exn_str e
  ∧ res_tool_calls res = tool_calls_made st
  ∧ res_tool_results res = tool_results st
  ∧ res_citations res = []
  ∧ dbg_error (res_debug res) = Some (exn_str e)
  ∧ (key_of_result <$> tool_results st)
      `prefix_of` (key_of_call <$> tool_calls_made st)
  ∧ length (tool_calls_made st) ≤ S (length (tool_results st)).
Proof.
  intros w0 retrieved built Hfault res. subst res.
  destruct (process_query_run_unfold ext settings self query chat_history
              user_id top_k max_iterations w)
    as (start_time & w0' & rag & w1 & messages & w2 & r & st' & now & w3
        & Hclock & Hrag & Hmsg & Hloop & Hnow & Hrun).
  subst built retrieved w0. rewrite Hclock in Hfault. simpl in Hfault.
  rewrite Hrag in Hfault. simpl in Hfault. rewrite Hmsg in Hfault.
  simpl in Hfault. rewrite Hloop in Hfault. injection Hfault as -> ->.
  unfold process_query. rewrite Hrun, Hnow. simpl.
  pose proof (agent_loop_inv ext settings self _ _ _ _ _ _ _ Hloop)
    as (_ & _ & (calls & results & Hc & Hres & Hpre & Hlen) & _).
  simpl in Hc, Hres. rewrite Hc, Hres. split_and!; done.
Qed.

(** A first turn that runs a tool, then a provider call that fails: the
    result is the error result, with the one invocation and its one
    outcome. *)
Lemma loop_fault_gives_error_result_witness :
  res_text (Demo.run Demo.provider_fails_second "Email the team" 5).1
  = error_prefix +:+ "Connection error."
  ∧ length (res_tool_calls
              (Demo.run Demo.provider_fails_second "Email the team" 5).1) = 1
  ∧ length (res_tool_results
              (Demo.run Demo.provider_fails_second "Email the team" 5).1) = 1
  ∧ res_citations (Demo.run Demo.provider_fails_second "Email the team" 5).1
    = []
  ∧ dbg_error
      (res_debug (Demo.run Demo.provider_fails_second "Email the team" 5).1)
    = Some "Connection error.".
Proof.
  pose (st := (Demo.run Demo.provider_fails_second "Email the team" 5).2).
  destruct (loop_fault_gives_error_result
              (Demo.oracles Demo.provider_fails_second) Demo.settings
              Demo.service "Email the team" None None 6 5 0
              (Demo.failure "APIConnectionError" "Connection error.") st)
    as (_ & Htext & Hcalls & Hresults & Hcites & Herr & _).
  { vm_compute. reflexivity. }
  unfold Demo.run. split_and!.
  - exact Htext.
  - rewrite Hcalls. reflexivity.
  - rewrite Hresults. reflexivity.
  - exact Hcites.
  - exact Herr.
Defined.

(** ** The scenarios of the specification, run on the model *)

(** A question answered from context: the text is the provider's, the
    citation is kept, no tool is called. *)
Example return_policy_scenario :
  let res := (Demo.run Demo.answers "What is your return policy?" 5).1 in
  res_text res = "You can return items within 30 days. [policy_returns_v1]"
  ∧ res_citations res = ["policy_returns_v1"]
  ∧ res_tool_calls res = []
  ∧ iterations (res_debug res) = 1%Z.
Proof. repeat split; reflexivity. Qed.

(** One tool call on the first turn, text on the second: two
    iterations, one invocation, one outcome. *)
Example schedule_scenario :
  let res := (Demo.run Demo.one_tool "Schedule a call" 5).1 in
  res_text res = "Scheduled."
  ∧ tool_name <$> res_tool_calls res = ["create_calendar_event"]
  ∧ out_success <$> res_tool_results res = [true]
  ∧ iterations (res_debug res) = 2%Z.
Proof. repeat split; reflexivity. Qed.

(** Near-duplicates by prefix are dropped and the walk stops at four. *)
Example dedup_context_example :
  chunk_id <$> dedup_context
    ((λ id, {| chunk_id := id; text := "t"; source := "s"; similarity := 0 |})
     <$> ["faq#1"; "faq#2"; "policy"; "ship#a"; "#x"; "late"; "later"])
  = ["faq#1"; "policy"; "ship#a"; "#x"].
Proof. reflexivity. Qed.

(** What the pattern finds, and what the extractor keeps. *)
Example findall_example :
  findall_citations "a [x] b [[y]] [] [z [w] ] [q" = ["x"; "[y"; "z [w"].
Proof. reflexivity. Qed.

Example extract_citations_example :
  _extract_citations "see [b], [a#1], [b] and [nope]"
    ((λ id, {| chunk_id := id; text := "t"; source := "s"; similarity := 0 |})
     <$> ["a#1"; "b"])
  = ["b"; "a#1"].
Proof. by vm_compute. Qed.

(** * Further properties of the code *)

(** ** Parameter validation and the email tool *)

Lemma is_missing_false (provided : gmap string PyVal) (param : string) :
  BaseTool.is_missing provided param = false
  ↔ ∃ v, provided !! param = Some v ∧ v ≠ PNone.
Proof.
  unfold BaseTool.is_missing. destruct (provided !! param) as [v|].
  - destruct v; split; try done; try (intros _; by eexists).
    intros (v & [= <-] & Hv). done.
  - split; [done|]. by intros (v & ? & _).
Qed.

(** X1. [validate_params] reports valid exactly when every required name
    is bound in [provided] to a value other than [None]; the names it
    reports missing are, in the order of [required], exactly the required
    names that are absent or bound to [None], and that list is empty
    when the parameters are valid. *)
Theorem validate_params_spec (required : list string)
    (provided : gmap string PyVal) :
  let outcome := BaseTool.validate_params required provided in
  (outcome.1 = true
   ↔ ∀ param, param ∈ required →
       ∃ v, provided !! param = Some v ∧ v ≠ PNone)
  ∧ (outcome.1 = true ↔ outcome.2 = [])
  ∧ outcome.2
    = filter (λ param, BaseTool.is_missing provided param = true) required
  ∧ outcome.2 `sublist_of` required
  ∧ (∀ param, param ∈ outcome.2
       ↔ param ∈ required
         ∧ (provided !! param = None ∨ provided !! param = Some PNone)).
Proof.
  intros outcome. subst outcome. unfold BaseTool.validate_params.
  remember (filter (λ param, BaseTool.is_missing provided param = true)
              required) as missing eqn:Hmissing.
  assert (Hmem : ∀ param, param ∈ missing
                   ↔ param ∈ required
                     ∧ (provided !! param = None
                        ∨ provided !! param = Some PNone)).
  { intros param. rewrite Hmissing, list_elem_of_filter.
    unfold BaseTool.is_missing.
    destruct (provided !! param) as [[]|]; naive_solver. }
  assert (Hsub : missing `sublist_of` required)
    by (rewrite Hmissing; apply sublist_filter).
  assert (Hvalid : missing = []
                   ↔ ∀ param, param ∈ required →
                       ∃ v, provided !! param = Some v ∧ v ≠ PNone).
  { split.
    - intros Hnil param Hin. apply is_missing_false.
      destruct (BaseTool.is_missing provided param) eqn:E; [|done].
      assert (param ∈ missing) as Hm
        by (rewrite Hmissing; by apply list_elem_of_filter).
      rewrite Hnil in Hm. by apply elem_of_nil in Hm.
    - intros Hall. destruct missing as [|x l]; [done|].
      assert (x ∈ x :: l) as Hx by apply list_elem_of_here.
      rewrite Hmissing in Hx.
      apply list_elem_of_filter in Hx as [Hmiss Hin].
      apply Hall, is_missing_false in Hin. congruence. }
  destruct missing as [|x l]; simpl.
  - split_and!; [|done|done|done|done].
    split; [intros _; by apply Hvalid | done].
  - split_and!; [| |done|done|done].
    + split; [done|]. intros Hall. by apply Hvalid in Hall.
    + done.
Qed.

Lemma email_validation (to subject body : option string) :
  BaseTool.validate_params ["to"; "subject"; "body"]
    (<["body" := EmailTool.arg body]> (<["subject" := EmailTool.arg subject]>
       (<["to" := EmailTool.arg to]> ∅)))
  = match absent "to" to ++ absent "subject" subject ++ absent "body" body with
    | [] => (true, [])
    | missing => (false, missing)
    end.
Proof. destruct to, subject, body; reflexivity. Qed.

(** X2. When [to], [subject] or [body] is [None], [EmailTool.execute]
    returns the error response whose message lists the parameters passed
    as [None], in the order to, subject, body, joined by a comma and a
    space; the Gmail service is not called and the state of the outside
    is left as it was. *)
Theorem email_missing_parameters {G : Type}
    (gmail_send : PyVal → PyVal → PyVal → G → EmailTool.SendOutcome * G)
    (corporate_email : string) (to subject body : option string)
    (kwargs : PyDict) (g : G) :
  to = None ∨ subject = None ∨ body = None →
  EmailTool.execute gmail_send corporate_email to subject body kwargs g
  = (BaseTool._error_response
       ("Missing required parameters: "
        +:+ PyStr.join ", "
              (absent "to" to ++ absent "subject" subject
               ++ absent "body" body)), g).
Proof.
  intros Hnone. unfold EmailTool.execute. rewrite email_validation.
  destruct to, subject, body; try done; naive_solver.
Qed.

(** Only the subject and the body are missing. *)
Lemma email_missing_parameters_witness :
  EmailTool.execute
    (λ _ _ _ (g : nat), (EmailTool.Sent ∅, S g)) "office@example.com"
    (Some "a@b.com") None None [] 0
  = (BaseTool._error_response
       "Missing required parameters: subject, body", 0).
Proof.
  apply (email_missing_parameters
           (λ _ _ _ (g : nat), (EmailTool.Sent ∅, S g)) "office@example.com"
           (Some "a@b.com") None None [] 0).
  right. by left.
Defined.

(** X3. [EmailTool.execute] answers with [success = True] exactly when
    the three parameters are strings (the empty string included) and
    sending ends without an exception.  The result then carries the
    recipient and the subject as given, the corporate address as
    sender, and the [id], [threadId] and [labelIds] of the sent message,
    [None], [None] and [[]] standing for an absent key.  Additional
    keyword arguments never change the response. *)
Theorem email_success_iff {G : Type}
    (gmail_send : PyVal → PyVal → PyVal → G → EmailTool.SendOutcome * G)
    (corporate_email : string) (to subject body : option string)
    (kwargs : PyDict) (g : G) :
  let response :=
    (EmailTool.execute gmail_send corporate_email to subject body kwargs g).1 in
  (success response = true
   ↔ ∃ t s b sent,
       to = Some t ∧ subject = Some s ∧ body = Some b
       ∧ (gmail_send (PStr t) (PStr s) (PStr b) g).1 = EmailTool.Sent sent)
  ∧ (∀ t s b sent,
       to = Some t → subject = Some s → body = Some b →
       (gmail_send (PStr t) (PStr s) (PStr b) g).1 = EmailTool.Sent sent →
       result response
       = Some [("message_id", EmailTool.dict_get sent "id" PNone);
               ("thread_id", EmailTool.dict_get sent "threadId" PNone);
               ("to", PStr t);
               ("subject", PStr s);
               ("from", PStr corporate_email);
               ("labels", EmailTool.dict_get sent "labelIds" (PList []))])
  ∧ EmailTool.execute gmail_send corporate_email to subject body kwargs g
    = EmailTool.execute gmail_send corporate_email to subject body [] g.
Proof.
  intros response. subst response. unfold EmailTool.execute.
  rewrite email_validation.
  destruct to as [t|], subject as [s|], body as [b|]; simpl;
    try (split_and!; [split; [done|]; by intros (?&?&?&?&?&?&?&?)
                     | by intros | done]).
  destruct (gmail_send (PStr t) (PStr s) (PStr b) g) as [[e|e|e|sent] g']
    eqn:Hsend; simpl.
  1-3: split_and!; [split; [done|] | | done];
       [ intros (t0 & s0 & b0 & sent & [= <-] & [= <-] & [= <-] & Hsent)
       | intros t0 s0 b0 sent [= <-] [= <-] [= <-] Hsent ];
       by rewrite Hsend in Hsent.
  split_and!; [| |done].
  - split; [|done]. intros _. exists t, s, b, sent. by rewrite Hsend.
  - intros t0 s0 b0 sent0 [= <-] [= <-] [= <-] Hsent.
    rewrite Hsend in Hsent. simpl in Hsent. by injection Hsent as <-.
Qed.

(** A message sent to a given address, with an empty subject. *)
Lemma email_success_iff_witness :
  result
    (EmailTool.execute
       (λ _ _ _ (g : nat), (EmailTool.Sent {[ "id" := PStr "m42" ]}, S g))
       "office@example.com" (Some "a@b.com") (Some "") (Some "Hello")
       [("cc", PStr "x@y.com")] 0).1
  = Some [("message_id", PStr "m42");
          ("thread_id", PNone);
          ("to", PStr "a@b.com");
          ("subject", PStr "");
          ("from", PStr "office@example.com");
          ("labels", PList [])].
Proof.
  etrans.
  - apply (proj1 (proj2 (email_success_iff
             (λ _ _ _ (g : nat), (EmailTool.Sent {[ "id" := PStr "m42" ]}, S g))
             "office@example.com" (Some "a@b.com") (Some "") (Some "Hello")
             [("cc", PStr "x@y.com")] 0))
           "a@b.com" "" "Hello" {[ "id" := PStr "m42" ]});
      reflexivity.
  - by vm_compute.
Defined.

(** X4. Once [_get_service] has returned a service, every later call
    returns that same service from the attribute, without building
    again: the tool and the outside are left as they were.  A call that
    raises leaves the tool as it was, not initialized, so that the next
    call builds again. *)
Theorem get_service_caches {G Service : Type}
    (build_service : G → (Exn + Service) * G)
    (self : GmailService.ToolState) (g : G) :
  let '(outcome, self', g') := GmailService._get_service build_service self g in
  match outcome with
  | inr service =>
      GmailService._get_service build_service self' g'
      = (inr service, self', g')
      ∧ (GmailService._initialized self = false →
         GmailService._initialized self' = true
         ∧ ∃ built, service = Some built
                    ∧ build_service g = (inr built, g'))
  | inl e =>
      self' = self
      ∧ GmailService._initialized self = false
      ∧ build_service g = (inl e, g')
      ∧ GmailService._get_service build_service self' g'
        = (let '(again, g'') := build_service g' in
           match again with
           | inr built =>
               (inr (Some built),
                {| GmailService._service := Some built;
                   GmailService._initialized := true |}, g'')
           | inl e' => (inl e', self, g'')
           end)
  end.
Proof.
  unfold GmailService._get_service.
  destruct (GmailService._initialized self) eqn:Hinit; simpl.
  - rewrite Hinit. simpl. split; done.
  - destruct (build_service g) as [[e|built] g'] eqn:Hbuild; simpl.
    + rewrite Hinit. simpl. split_and!; try done;
        by destruct (build_service g') as [[?|?] ?].
    + split; [done|]. intros _. split; [done|]. by exists built.
Qed.

(** ** Provider selection and the adapters *)

(** X5. [__init__] accepts exactly the providers [openai] and
    [anthropic], taking the chat model of the provider chosen, and
    raises [ValueError] for any other.  For a service it has built,
    [_call_llm_with_tools] never raises its own "Unsupported provider"
    error: an exception it raises was raised by the client of the
    provider, or is the [IndexError] of an OpenAI response without
    choices. *)
Theorem configured_provider_dispatch {W : Type} (ext : Oracles W)
    (settings : Settings) :
  match init_service settings with
  | inr self =>
      provider self = ai_provider settings
      ∧ ((provider self = "openai" ∧ model self = openai_chat_model settings)
         ∨ (provider self = "anthropic"
            ∧ model self = anthropic_chat_model settings))
      ∧ ∀ messages st e st',
          _call_llm_with_tools ext settings self messages st = (inl e, st') →
          (provider self = "openai"
           ∧ ((openai_create ext (model self) messages
                 (TOOL_DEFINITIONS settings) (world st)).1 = inl e
              ∨ ((openai_create ext (model self) messages
                    (TOOL_DEFINITIONS settings) (world st)).1 = inr []
                 ∧ exn_type e = "IndexError")))
          ∨ (provider self = "anthropic"
             ∧ (anthropic_create ext (model self)
                  (split_system messages (Some EmptyString) []).1
                  (split_system messages (Some EmptyString) []).2
                  (anthropic_tools (TOOL_DEFINITIONS settings))
                  (world st)).1 = inl e)
  | inl e =>
      ai_provider settings ≠ "openai"
      ∧ ai_provider settings ≠ "anthropic"
      ∧ exn_type e = "ValueError"
      ∧ exn_str e = "Unsupported AI provider: " +:+ ai_provider settings
  end.
Proof.
  unfold init_service.
  destruct (decide (ai_provider settings = "openai")) as [Ho|Ho];
    [|destruct (decide (ai_provider settings = "anthropic")) as [Ha|Ha]];
    [| |done].
  - split_and!; [done | by left |]. simpl.
    intros messages st e st' Hrun. left. split; [done|].
    unfold _call_llm_with_tools, bind, enter_calling in Hrun. simpl in Hrun.
    destruct (decide (ai_provider settings = "openai")); [|done].
    unfold _call_openai, bind, call in Hrun. simpl in Hrun.
    destruct (openai_create ext (openai_chat_model settings) messages
                (TOOL_DEFINITIONS settings) (world st)) as [[e'|[|m ms]] w'];
      simpl in *.
    + left. by injection Hrun as <- _.
    + right. by injection Hrun as <- _.
    + done.
  - split_and!; [done | by right |]. simpl.
    intros messages st e st' Hrun. right. split; [done|].
    unfold _call_llm_with_tools, bind, enter_calling in Hrun. simpl in Hrun.
    destruct (decide (ai_provider settings = "openai")); [done|].
    destruct (decide (ai_provider settings = "anthropic")); [|done].
    unfold _call_anthropic in Hrun.
    destruct (split_system messages (Some EmptyString) []) as [sys msgs].
    unfold bind, call in Hrun. simpl in *.
    destruct (anthropic_create ext (anthropic_chat_model settings) sys msgs
                (anthropic_tools (TOOL_DEFINITIONS settings)) (world st))
      as [[e'|blocks] w']; simpl in *; [|done].
    by injection Hrun as <- _.
Qed.

Lemma rebuild_tool_calls (calls : list ToolCall) :
  (λ tc, {| tc_id := tc_id tc;
            tc_function := {| fn_name := fn_name (tc_function tc);
                              fn_arguments := fn_arguments (tc_function tc) |} |})
  <$> calls = calls.
Proof.
  induction calls as [|[id [name args]] calls IH]; [done|].
  rewrite fmap_cons, IH. done.
Qed.

Lemma scan_blocks_tool_calls dumps blocks tool_calls content :
  (scan_blocks dumps blocks tool_calls content).1
  = tool_calls ++ omap (tool_use_call dumps) blocks.
Proof.
  revert tool_calls content.
  induction blocks as [|[t|i n v|ty] blocks IH]; intros tool_calls content;
    simpl.
  - by rewrite app_nil_r.
  - apply IH.
  - rewrite IH, <- app_assoc. done.
  - apply IH.
Qed.

(** X6. Neither adapter ever returns an empty list of tool calls: the
    field is [None] or a list with a first element, so the test
    [if response.get('tool_calls')] of the loop is a test for [None].
    The OpenAI adapter hands on the content of the message and, when the
    message has tool calls, those calls in their order with their ids,
    names and argument texts; both [None] and the empty list become
    [None]. *)
Theorem adapters_tool_calls_shape (dumps : PyVal → string) :
  (∀ message,
     resp_tool_calls (openai_result message) ≠ Some []
     ∧ resp_content (openai_result message) = oa_content message
     ∧ resp_tool_calls (openai_result message)
       = match oa_tool_calls message with
         | Some (tc :: tcs) => Some (tc :: tcs)
         | _ => None
         end)
  ∧ (∀ blocks, resp_tool_calls (anthropic_result dumps blocks) ≠ Some []).
Proof.
  split.
  - intros message. unfold openai_result.
    cbn [resp_tool_calls resp_content].
    destruct (oa_tool_calls message) as [[|tc tcs]|]; split_and!; try done.
    by rewrite rebuild_tool_calls.
  - intros blocks. rewrite anthropic_result_tool_calls.
    by destruct (scan_blocks dumps blocks [] EmptyString).1.
Qed.

(** X7. The tool calls the Anthropic adapter returns are the [tool_use]
    blocks of the response, in the order of the response, each with the
    id and the name of its block and the JSON text of its input; blocks
    of any other type in between change nothing. *)
Theorem anthropic_tool_calls_in_order (dumps : PyVal → string)
    (blocks : list AnthropicBlock) :
  resp_tool_calls (anthropic_result dumps blocks)
  = match omap (tool_use_call dumps) blocks with
    | [] => None
    | calls => Some calls
    end.
Proof.
  rewrite anthropic_result_tool_calls, scan_blocks_tool_calls. done.
Qed.

Lemma last_cons_default {A} (x : A) (l : list A) :
  last (x :: l) = Some (default x (last l)).
Proof.
  revert x. induction l as [|y l IH]; intros x; [done|].
  by rewrite last_cons_cons, IH.
Qed.

Lemma split_system_spec messages system_content user_messages :
  split_system messages system_content user_messages
  = (default system_content
       (last (content <$> filter (λ msg, role msg = "system") messages)),
     user_messages ++ filter (λ msg, role msg ≠ "system") messages).
Proof.
  revert system_content user_messages.
  induction messages as [|msg messages IH];
    intros system_content user_messages.
  - simpl. by rewrite app_nil_r.
  - cbn [split_system]. destruct (decide (role msg = "system")) as [Hs|Hs].
    + rewrite IH.
      rewrite (filter_cons_True (λ msg, role msg = "system")) by done.
      rewrite (filter_cons_False (λ msg, role msg ≠ "system")) by tauto.
      rewrite fmap_cons. f_equal. by rewrite last_cons_default.
    + rewrite IH.
      rewrite (filter_cons_False (λ msg, role msg = "system")) by done.
      rewrite (filter_cons_True (λ msg, role msg ≠ "system")) by done.
      by rewrite <- app_assoc.
Qed.

Lemma filter_system_history (history : list ChatMessage) :
  filter (λ msg, role msg = "system")
    ((λ msg, plain_message (chat_role msg) (chat_content msg)) <$> history)
  = (λ msg, plain_message (chat_role msg) (chat_content msg))
    <$> filter (λ msg, chat_role msg = "system") history.
Proof.
  induction history as [|msg history IH]; [done|].
  rewrite fmap_cons. destruct (decide (chat_role msg = "system")) as [Hp|Hp].
  - rewrite (filter_cons_True (λ msg, chat_role msg = "system")) by done.
    rewrite filter_cons_True by done. by rewrite fmap_cons, IH.
  - rewrite (filter_cons_False (λ msg, chat_role msg = "system")) by done.
    by rewrite filter_cons_False by done.
Qed.

Lemma filter_other_history (history : list ChatMessage) :
  filter (λ msg, role msg ≠ "system")
    ((λ msg, plain_message (chat_role msg) (chat_content msg)) <$> history)
  = (λ msg, plain_message (chat_role msg) (chat_content msg))
    <$> filter (λ msg, chat_role msg ≠ "system") history.
Proof.
  induction history as [|msg history IH]; [done|].
  rewrite fmap_cons. destruct (decide (chat_role msg = "system")) as [Hp|Hp].
  - rewrite (filter_cons_False (λ msg, chat_role msg ≠ "system")) by tauto.
    by rewrite filter_cons_False by (simpl; tauto).
  - rewrite (filter_cons_True (λ msg, chat_role msg ≠ "system")) by done.
    rewrite filter_cons_True by done. by rewrite fmap_cons, IH.
Qed.

Lemma last_sent_content (history : list ChatMessage) (fallback : string) :
  default (Some fallback)
    (last (content
           <$> ((λ msg, plain_message (chat_role msg) (chat_content msg))
                <$> history)))
  = Some (default fallback (last (chat_content <$> history))).
Proof.
  revert fallback. induction history as [|msg history IH]; intros fallback;
    [done|].
  rewrite !fmap_cons, !last_cons_default. simpl. apply IH.
Qed.

(** X8. What the Anthropic adapter sends for the messages of the prompt
    builder: as [system] parameter the built system prompt, unless the
    history holds messages of role [system], in which case the content
    of the last of them replaces the prompt; as messages the history
    without its messages of role [system], in order, then the user
    message with the query. *)
Theorem anthropic_request_of_built_messages (settings : Settings)
    (current_date : string) (current_year : Z) (query : string)
    (rag_context : list ContextBlock)
    (chat_history : option (list ChatMessage)) :
  let history := default [] chat_history in
  let prompt :=
    system_prompt current_date current_year (context_str rag_context)
      (google_calendar_email settings) in
  split_system
    (build_messages settings current_date current_year query rag_context
       chat_history) (Some EmptyString) []
  = (Some (last_system prompt history),
     ((λ msg, plain_message (chat_role msg) (chat_content msg))
      <$> filter (λ msg, chat_role msg ≠ "system") history)
     ++ [plain_message "user" query]).
Proof.
  intros history prompt. rewrite split_system_spec. unfold build_messages.
  fold prompt.
  assert (Hh : history_messages chat_history
               = (λ msg, plain_message (chat_role msg) (chat_content msg))
                 <$> history) by (by destruct chat_history).
  rewrite Hh. clear Hh.
  assert (Hsys : filter (λ msg, role msg = "system")
                   ([plain_message "system" prompt]
                    ++ ((λ msg, plain_message (chat_role msg) (chat_content msg))
                        <$> history)
                    ++ [plain_message "user" query])
                 = plain_message "system" prompt
                   :: ((λ msg, plain_message (chat_role msg) (chat_content msg))
                       <$> filter (λ msg, chat_role msg = "system") history)).
  { rewrite !filter_app.
    rewrite filter_system_history.
    rewrite (filter_cons_True _ (plain_message "system" prompt)) by done.
    rewrite (filter_cons_False _ (plain_message "user" query)) by done.
    by rewrite !filter_nil, app_nil_r. }
  assert (Husers : filter (λ msg, role msg ≠ "system")
                     ([plain_message "system" prompt]
                      ++ ((λ msg, plain_message (chat_role msg) (chat_content msg))
                          <$> history)
                      ++ [plain_message "user" query])
                   = ((λ msg, plain_message (chat_role msg) (chat_content msg))
                      <$> filter (λ msg, chat_role msg ≠ "system") history)
                     ++ [plain_message "user" query]).
  { rewrite !filter_app.
    rewrite filter_other_history.
    rewrite (filter_cons_False _ (plain_message "system" prompt))
      by (simpl; tauto).
    rewrite (filter_cons_True _ (plain_message "user" query)) by done.
    by rewrite !filter_nil. }
  rewrite Hsys, Husers. f_equal.
  rewrite fmap_cons, last_cons_default. simpl. unfold last_system.
  apply last_sent_content.
Qed.

(** ** Base prefixes and the deduplication walk *)

Lemma span_not_clean c s :
  PyStr.contains c s = false → PyStr.span_not c s = (s, EmptyString).
Proof.
  induction s as [|d s IH]; simpl; [done|].
  destruct (Ascii.eqb d c); [done|]. intros H. by rewrite IH.
Qed.

Lemma split_hd_span c s :
  hd EmptyString (PyStr.split c s) = (PyStr.span_not c s).1.
Proof.
  induction s as [|d s IH]; simpl; [done|].
  destruct (Ascii.eqb d c); [done|].
  destruct (PyStr.span_not c s) as [pre post].
  destruct (PyStr.split c s) as [|h t]; simpl in *; by subst.
Qed.

Lemma base_id_span (s : string) : base_id s = (PyStr.span_not "#" s).1.
Proof.
  unfold base_id. destruct (PyStr.contains "#" s) eqn:Hc.
  - apply split_hd_span.
  - by rewrite span_not_clean.
Qed.

(** X9. The base prefix of a [chunk_id] never holds a ['#'], is an
    initial part of the [chunk_id], and is its own base prefix.  It is
    empty for every [chunk_id] that starts with ['#'], so that all such
    chunks count as duplicates of one another. *)
Theorem base_id_properties (chunk_id : string) :
  PyStr.contains "#" (base_id chunk_id) = false
  ∧ (∃ rest, chunk_id = base_id chunk_id +:+ rest)
  ∧ base_id (base_id chunk_id) = base_id chunk_id
  ∧ (∀ rest, base_id (String "#" rest) = EmptyString).
Proof.
  rewrite base_id_span.
  destruct (PyStr.span_not "#" chunk_id) as [pre post] eqn:E. simpl.
  pose proof (span_not_free _ _ _ _ E) as Hfree.
  split_and!.
  - done.
  - exists post. by eapply span_not_app.
  - by apply base_id_spec.
  - intros rest. by rewrite base_id_span.
Qed.

Lemma take_app_short {A} (l k : list A) (n : nat) :
  n ≤ length l → take n (l ++ k) = take n l.
Proof. intros H. by rewrite take_app_le. Qed.

(** With pairwise distinct base prefixes the walk keeps every candidate
    until it holds four. *)
Lemma dedup_walk_distinct (search_results : list ContextBlock)
    (seen : gset string) (acc : list ContextBlock) :
  (∀ b, b ∈ seen ↔ b ∈ base_of <$> acc) →
  length acc < 4 →
  NoDup (base_of <$> (acc ++ search_results)) →
  dedup_walk search_results seen acc = take 4 (acc ++ search_results).
Proof.
  revert seen acc.
  induction search_results as [|c rest IH]; intros seen acc Hseen Hlen Hnd.
  - simpl. rewrite app_nil_r. by rewrite take_ge by lia.
  - assert (Hfresh : base_of c ∉ seen).
    { rewrite Hseen. rewrite fmap_app, fmap_cons in Hnd.
      apply NoDup_app in Hnd as (_ & Hdisj & _). intros Hin.
      apply (Hdisj _ Hin). apply list_elem_of_here. }
    rewrite dedup_walk_fresh by done.
    destruct (4 <=? length (acc ++ [c])) eqn:Hcap.
    + apply Nat.leb_le in Hcap. rewrite length_app in Hcap. simpl in Hcap.
      rewrite (cons_middle c acc rest), app_assoc.
      rewrite take_app_short by (rewrite length_app; simpl; lia).
      rewrite take_ge; [done|]. rewrite length_app. simpl. lia.
    + apply Nat.leb_gt in Hcap.
      rewrite (cons_middle c acc rest), app_assoc. apply IH.
      * intros b. rewrite fmap_app, elem_of_app, elem_of_union, Hseen.
        simpl. by rewrite list_elem_of_singleton, elem_of_singleton.
      * done.
      * by rewrite <- app_assoc.
Qed.

(** X10. When the candidates have pairwise distinct base prefixes the
    context assembler returns the first four of them (all of them when
    there are at most four).  Applying the walk to its own result
    changes nothing, and the first candidate is always the first block
    returned. *)
Theorem dedup_context_keeps (search_results : list ContextBlock) :
  (NoDup (base_of <$> search_results) →
   dedup_context search_results = take 4 search_results)
  ∧ dedup_context (dedup_context search_results)
    = dedup_context search_results
  ∧ head (dedup_context search_results) = head search_results.
Proof.
  assert (Hdistinct : ∀ l, NoDup (base_of <$> l) →
                           dedup_context l = take 4 l).
  { intros l Hnd. unfold dedup_context. apply dedup_walk_distinct.
    - intros b. simpl. set_solver.
    - simpl. lia.
    - done. }
  split_and!.
  - apply Hdistinct.
  - destruct (dedup_walk_spec search_results ∅ [])
      as (k & w & u & E & Hsplit & Hw & Hu & Hk).
    { intros b. simpl. set_solver. }
    { simpl. lia. }
    simpl in *. unfold dedup_context at 2 3. rewrite E.
    rewrite Hdistinct.
    + by rewrite take_ge by lia.
    + by apply (Walk_NoDup [] w k Hw), NoDup_nil.
  - destruct search_results as [|c rest]; [done|].
    unfold dedup_context. rewrite dedup_walk_fresh by set_solver.
    simpl.
    destruct (dedup_walk_spec rest (∅ ∪ {[base_of c]}) [c])
      as (k & w & u & E & _).
    { intros b. simpl. set_solver. }
    { simpl. lia. }
    by rewrite E.
Qed.

(** ** Rendering the context and citing it *)

Lemma append_nil_r (s : string) : s +:+ EmptyString = s.
Proof. induction s as [|d s IH]; [done|]. by rewrite append_cons, IH. Qed.

Lemma contains_app c (p q : string) :
  PyStr.contains c (p +:+ q) = PyStr.contains c p || PyStr.contains c q.
Proof.
  induction p as [|d p IH]; [done|].
  rewrite append_cons. simpl. by destruct (Ascii.eqb d c).
Qed.

(** Text without ['['] holds no citation and hides none after it. *)
Lemma findall_skip (s rest : string) :
  PyStr.contains "[" s = false →
  findall_citations (s +:+ rest) = findall_citations rest.
Proof.
  induction s as [|c s IH]; [done|].
  simpl. destruct (Ascii.eqb c "[") eqn:Ec; [done|]. intros Hfree.
  rewrite append_cons, findall_citations_eq.
  rewrite match_citation_at_other by done. by apply IH.
Qed.

Lemma findall_rendered (block : ContextBlock) (rest : string) :
  citable block →
  findall_citations
    (("[" +:+ chunk_id block +:+ "] " +:+ text block) +:+ rest)
  = chunk_id block :: findall_citations rest.
Proof.
  intros (Hne & Hid & Htext).
  replace (("[" +:+ chunk_id block +:+ "] " +:+ text block) +:+ rest)
    with ("[" +:+ chunk_id block
          +:+ String "]" ((" " +:+ text block) +:+ rest)).
  2: { rewrite !append_assoc. reflexivity. }
  rewrite findall_citations_eq, match_citation_at_marker by done.
  f_equal. apply findall_skip. rewrite contains_app. by rewrite Htext.
Qed.

Lemma join_cons_cons (sep p q : string) (parts : list string) :
  PyStr.join sep (p :: q :: parts)
  = p +:+ sep +:+ PyStr.join sep (q :: parts).
Proof. reflexivity. Qed.

Lemma findall_joined (rag_context : list ContextBlock) :
  Forall citable rag_context →
  findall_citations (PyStr.join (nl +:+ nl) (context_parts rag_context))
  = chunk_id <$> rag_context.
Proof.
  induction 1 as [|block rest Hblock Hrest IH]; [done|].
  unfold context_parts in *. rewrite fmap_cons.
  destruct rest as [|block' rest].
  - simpl. rewrite <- (append_nil_r (_ +:+ _ +:+ _ +:+ text block)).
    by rewrite findall_rendered.
  - rewrite !fmap_cons in IH |- *. cbv beta in IH |- *.
    rewrite join_cons_cons.
    rewrite findall_rendered by done.
    rewrite findall_skip by done. by rewrite IH.
Qed.

Lemma filter_all {A} (P : A → Prop) `{!∀ x, Decision (P x)} (l : list A) :
  (∀ x, x ∈ l → P x) → filter P l = l.
Proof.
  induction l as [|x l IH]; intros Hall; [done|].
  rewrite filter_cons_True by (apply Hall, list_elem_of_here).
  f_equal. apply IH. intros y Hy. by apply Hall, list_elem_of_further.
Qed.

Lemma unique_loop_distinct (valid unique : list string) :
  NoDup (unique ++ valid) → unique_loop valid unique = unique ++ valid.
Proof.
  revert unique. induction valid as [|c valid IH]; intros unique Hnd.
  - by rewrite app_nil_r.
  - simpl. destruct (decide (c ∈ unique)) as [Hin|Hnotin].
    + apply NoDup_app in Hnd as (_ & Hdisj & _). exfalso.
      apply (Hdisj c Hin), list_elem_of_here.
    + rewrite IH by (by rewrite <- app_assoc). by rewrite <- app_assoc.
Qed.

(** X11. The rendering of the context in the system prompt and the
    citation extractor fit together: in the rendered context section of
    blocks whose [chunk_id] is not empty and holds no [']'] and whose
    text holds no ['['], the bracketed tokens are the [chunk_id]s of the
    blocks, in order; the extractor, run on that section, returns every
    [chunk_id] of the context, and returns them in order when they are
    pairwise distinct.  For the empty context the section is the marker
    and holds no citation. *)
Theorem rendered_context_is_citable (rag_context : list ContextBlock) :
  Forall citable rag_context →
  findall_citations (context_str rag_context) = chunk_id <$> rag_context
  ∧ (∀ c, c ∈ _extract_citations (context_str rag_context) rag_context
        ↔ c ∈ chunk_id <$> rag_context)
  ∧ (NoDup (chunk_id <$> rag_context) →
     _extract_citations (context_str rag_context) rag_context
     = chunk_id <$> rag_context).
Proof.
  intros Hcitable.
  assert (Hfound : findall_citations (context_str rag_context)
                   = chunk_id <$> rag_context).
  { unfold context_str.
    destruct (context_parts rag_context) as [|p ps] eqn:E.
    - destruct rag_context; [by vm_compute|done].
    - rewrite <- E. by apply findall_joined. }
  assert (Hvalid : filter (λ cite, cite ∈ (list_to_set (chunk_id <$> rag_context)
                                           : gset string))
                     (chunk_id <$> rag_context)
                   = chunk_id <$> rag_context).
  { apply filter_all. intros x Hx. by apply elem_of_list_to_set. }
  split_and!; [done| |].
  - intros c. unfold _extract_citations. rewrite Hfound, Hvalid.
    destruct (unique_loop_spec (chunk_id <$> rag_context) [])
      as (added & -> & _ & Hmem & _); [apply NoDup_nil_2|].
    simpl. rewrite Hmem, elem_of_nil. tauto.
  - intros Hnd. unfold _extract_citations. rewrite Hfound, Hvalid.
    by rewrite unique_loop_distinct.
Qed.

(** Two blocks: both citations are found, in order. *)
Lemma rendered_context_is_citable_witness :
  _extract_citations
    (context_str
       [Demo.policy_block;
        {| chunk_id := "faq#2"; text := "Ask us."; source := "faq";
           similarity := 80 |}])
    [Demo.policy_block;
     {| chunk_id := "faq#2"; text := "Ask us."; source := "faq";
        similarity := 80 |}]
  = ["policy_returns_v1"; "faq#2"].
Proof.
  apply (rendered_context_is_citable
           [Demo.policy_block;
            {| chunk_id := "faq#2"; text := "Ask us."; source := "faq";
               similarity := 80 |}]).
  - repeat constructor; done.
  - apply (bool_decide_unpack (NoDup _)). by vm_compute.
Defined.

(** ** Turns of the loop *)

(** One round of the loop over the tool calls, case by case: the
    arguments do not decode; or the invocation is recorded and the
    dispatch raises; or the registry answers, the outcome is recorded,
    the two messages are added and the loop goes on. *)
Lemma run_tool_calls_step {W : Type} (ext : Oracles W)
    (tool_call : ToolCall) (rest : list ToolCall) (messages : list Message)
    (st : RunState W) (r : Exn + list Message) (st' : RunState W) :
  run_tool_calls ext (tool_call :: rest) messages st = (r, st') →
  (∃ e, r = inl e ∧ st' = st)
  ∨ (∃ e tool_args,
       r = inl e
       ∧ tool_calls_made st'
         = tool_calls_made st ++ [invocation_of tool_call tool_args]
       ∧ tool_results st' = tool_results st)
  ∨ (∃ kwargs resp w',
       json_loads ext (fn_arguments (tc_function tool_call))
       = inr (PDict kwargs)
       ∧ execute_tool ext (fn_name (tc_function tool_call)) kwargs (world st)
         = (inr resp, w')
       ∧ run_tool_calls ext rest
           (messages ++ turn_messages ext tool_call resp)
           {| world := w';
              tool_calls_made :=
                tool_calls_made st
                ++ [invocation_of tool_call (PDict kwargs)];
              tool_results := tool_results st ++ [outcome_of tool_call resp];
              calling_entered := calling_entered st |}
         = (r, st')).
Proof.
  intros Hrun. simpl in Hrun.
  apply bind_inv in Hrun
    as [(tool_args & st1 & Hloads & Hrun)|(e & Hloads & ->)];
    unfold pure_or_raise in Hloads; injection Hloads as Hloads <-.
  2: { left. by exists e. }
  apply bind_inv in Hrun as [(u & st2 & Hrec & Hrun)|(e & Hrec & _)];
    unfold record_call in Hrec; [|done]. injection Hrec as <- <-.
  apply bind_inv in Hrun as [(resp & st3 & Hdisp & Hrun)|(e & Hdisp & ->)].
  - right. right. unfold dispatch_tool in Hdisp.
    destruct tool_args as [| | | | |kwargs]; try done.
    unfold call in Hdisp. simpl in Hdisp.
    destruct (execute_tool ext (fn_name (tc_function tool_call)) kwargs
                (world st)) as [[e|resp'] w'] eqn:Hexec; [done|].
    injection Hdisp as <- <-.
    apply bind_inv in Hrun as [(u' & st4 & Hres & Hrun)|(e & Hres & _)];
      unfold record_result in Hres; [|done]. injection Hres as <- <-.
    by exists kwargs, resp', w'.
  - right. left. exists e, tool_args. split; [done|].
    unfold dispatch_tool in Hdisp.
    destruct tool_args as [| | | | |kwargs];
      try (by injection Hdisp as _ <-).
    by apply call_inv in Hdisp as (_ & -> & -> & _).
Qed.

(** X12. When the loop over the tool calls of a turn ends normally, the
    conversation it returns is the one it was given followed, for each
    tool call in order, by an assistant message carrying that call and a
    tool message with the id of the call and the JSON text of the
    response of the registry; nothing that was in the conversation is
    changed or removed.  The responses are those the registry returned:
    for each call in order, [execute_tool] was given the name of the
    call and the mapping its argument text decodes to, on the state of
    the outside left by the call before, and the run ends in the state
    left by the last.  The same responses, in the same order, are the
    outcomes added to [tool_results]. *)
Theorem tool_turn_extends_conversation {W : Type} (ext : Oracles W)
    (calls : list ToolCall) (messages messages' : list Message)
    (st st' : RunState W) :
  run_tool_calls ext calls messages st = (inr messages', st') →
  ∃ responses,
    dispatched ext calls (world st) responses (world st')
    ∧ length responses = length calls
    ∧ messages'
      = messages ++ concat (zip_with (turn_messages ext) calls responses)
    ∧ tool_results st'
      = tool_results st ++ zip_with outcome_of calls responses
    ∧ length messages' = length messages + 2 * length calls
    ∧ messages `prefix_of` messages'.
Proof.
  revert messages st. induction calls as [|tool_call rest IH];
    intros messages st Hrun.
  - injection Hrun as <- <-. exists []. simpl. rewrite !app_nil_r.
    split_and!; first [by constructor | done | lia].
  - apply run_tool_calls_step in Hrun
      as [(e & [=] & _)
         |[(e & args & [=] & _)
          |(kwargs & resp & w' & Hloads & Hexec & Hrest)]].
    apply IH in Hrest
      as (responses & Hdisp & Hlen & -> & Hres & Hcount & Hpre).
    simpl in Hres, Hdisp. exists (resp :: responses). simpl.
    rewrite <- !app_assoc in *. simpl in *.
    split_and!; try done.
    all: try (by eapply dispatched_cons).
    all: try (by rewrite Hlen).
    all: try (by apply prefix_app_r).
    all: rewrite !length_app in *; simpl in *; lia.
Qed.

(** One tool call, answered by the registry: two messages are added. *)
Lemma tool_turn_extends_conversation_witness :
  ∃ responses,
    dispatched (Demo.oracles Demo.one_tool)
      [{| tc_id := "call_1";
          tc_function := {| fn_name := "send_email";
                            fn_arguments := "{}" |} |}]
      0 responses 0
    ∧ length responses = 1
    ∧ (run_tool_calls (Demo.oracles Demo.one_tool)
         [{| tc_id := "call_1";
             tc_function := {| fn_name := "send_email";
                               fn_arguments := "{}" |} |}]
         [plain_message "user" "Email the team"] (initial_state 0)).1
      = inr ([plain_message "user" "Email the team"]
             ++ concat
                  (zip_with (turn_messages (Demo.oracles Demo.one_tool))
                     [{| tc_id := "call_1";
                         tc_function := {| fn_name := "send_email";
                                           fn_arguments := "{}" |} |}]
                     responses)).
Proof.
  destruct (tool_turn_extends_conversation (Demo.oracles Demo.one_tool)
              [{| tc_id := "call_1";
                  tc_function := {| fn_name := "send_email";
                                    fn_arguments := "{}" |} |}]
              [plain_message "user" "Email the team"]
              ([plain_message "user" "Email the team"]
               ++ turn_messages (Demo.oracles Demo.one_tool)
                    {| tc_id := "call_1";
                       tc_function := {| fn_name := "send_email";
                                         fn_arguments := "{}" |} |}
                    (BaseTool._success_response [("message_id", PStr "m1")]))
              (initial_state 0)
              {| world := 0;
                 tool_calls_made :=
                   [invocation_of
                      {| tc_id := "call_1";
                         tc_function := {| fn_name := "send_email";
                                           fn_arguments := "{}" |} |}
                      (PDict [])];
                 tool_results :=
                   [outcome_of
                      {| tc_id := "call_1";
                         tc_function := {| fn_name := "send_email";
                                           fn_arguments := "{}" |} |}
                      (BaseTool._success_response
                         [("message_id", PStr "m1")])];
                 calling_entered := 0 |})
    as (responses & Hdisp & Hlen & Hmsgs & _).
  { reflexivity. }
  exists responses. split_and!; [done | done | by rewrite <- Hmsgs].
Defined.

(** ** Whole runs *)

(** X13. With a [max_iterations] of zero or less the loop body never
    runs: the provider is not called, no tool is invoked, and the run
    returns the fallback text with no citation, no error and
    [debug.iterations = 0]; the context is still retrieved and
    reported. *)
Theorem no_budget_no_provider_call {W : Type} (ext : Oracles W)
    (settings : Settings) (self : AgentService) (query : string)
    (chat_history : option (list ChatMessage)) (user_id : option string)
    (top_k max_iterations : Z) (w : W) :
  (max_iterations ≤ 0)%Z →
  let run :=
    process_query_run ext settings self query chat_history user_id top_k
      max_iterations w in
  calling_entered run.2 = 0
  ∧ res_text run.1 = fallback_text
  ∧ res_tool_calls run.1 = []
  ∧ res_tool_results run.1 = []
  ∧ res_citations run.1 = []
  ∧ iterations (res_debug run.1) = 0%Z
  ∧ dbg_error (res_debug run.1) = None
  ∧ rag_chunk_ids (res_debug run.1)
    = chunk_id <$> (_get_rag_context ext query top_k (time_time ext w).2).1.
Proof.
  intros Hmax run. subst run.
  destruct (process_query_run_unfold ext settings self query chat_history
              user_id top_k max_iterations w)
    as (start_time & w0 & rag & w1 & messages & w2 & r & st & now & w3
        & Hclock & Hrag & Hmsg & Hloop & Hnow & Hrun).
  rewrite Hrun, Hclock. simpl. rewrite Hrag. simpl.
  replace (Z.to_nat max_iterations) with 0 in Hloop by lia.
  injection Hloop as <- <-. simpl. split_and!; done.
Qed.

(** A budget of zero: nothing is asked of the provider. *)
Lemma no_budget_no_provider_call_witness :
  calling_entered (Demo.run Demo.always_tools "Remind everyone" 0).2 = 0
  ∧ res_text (Demo.run Demo.always_tools "Remind everyone" 0).1
    = fallback_text.
Proof.
  destruct (no_budget_no_provider_call (Demo.oracles Demo.always_tools)
              Demo.settings Demo.service "Remind everyone" None None 6 0 0)
    as (H1 & H2 & _); [lia|].
  split; [exact H1 | exact H2].
Defined.

(** X14. When the budget is positive and the first response of the
    provider carries no tool call, the run ends after that one call:
    the text is the content of the response, or the fallback text when
    the content is [None] or empty; the citations are extracted from
    the content; no tool is invoked and [debug.iterations] is 1. *)
Theorem first_turn_text_answer {W : Type} (ext : Oracles W)
    (settings : Settings) (self : AgentService) (query : string)
    (chat_history : option (list ChatMessage)) (user_id : option string)
    (top_k max_iterations : Z) (w : W) (response : LLMResponse)
    (st1 : RunState W) :
  let w0 := (time_time ext w).2 in
  let retrieved := _get_rag_context ext query top_k w0 in
  let built :=
    _build_initial_messages ext settings query retrieved.1 chat_history
      retrieved.2 in
  (0 < max_iterations)%Z →
  _call_llm_with_tools ext settings self built.1 (initial_state built.2)
  = (inr response, st1) →
  resp_tool_calls response = None ∨ resp_tool_calls response = Some [] →
  let run :=
    process_query_run ext settings self query chat_history user_id top_k
      max_iterations w in
  res_text run.1 = PyStr.or_else (resp_content response) fallback_text
  ∧ res_citations run.1
    = _extract_citations (PyStr.or_else (resp_content response) EmptyString)
        retrieved.1
  ∧ res_tool_calls run.1 = []
  ∧ res_tool_results run.1 = []
  ∧ iterations (res_debug run.1) = 1%Z
  ∧ dbg_error (res_debug run.1) = None
  ∧ calling_entered run.2 = 1.
Proof.
  intros w0 retrieved built Hmax Hllm Hnone run. subst run.
  destruct (process_query_run_unfold ext settings self query chat_history
              user_id top_k max_iterations w)
    as (start_time & w0' & rag & w1 & messages & w2 & r & st & now & w3
        & Hclock & Hrag & Hmsg & Hloop & Hnow & Hrun).
  subst built retrieved w0. rewrite Hclock in Hllm |- *. simpl in Hllm |- *.
  rewrite Hrag in Hllm |- *. simpl in Hllm |- *. rewrite Hmsg in Hllm.
  simpl in Hllm. rewrite Hrun. simpl.
  destruct (Z.to_nat max_iterations) as [|fuel] eqn:Hfuel; [lia|].
  rewrite agent_loop_S in Hloop.
  destruct (Z.ltb_spec 0 max_iterations); [|lia].
  unfold bind at 1 in Hloop. rewrite Hllm in Hloop.
  apply call_llm_inv in Hllm as (Hn & Hc & Hr).
  assert (Hexit : r = inr (1%Z, resp_content response) ∧ st = st1).
  { destruct Hnone as [Hnone|Hnone]; rewrite Hnone in Hloop;
      by injection Hloop as <- <-. }
  destruct Hexit as [-> ->]. simpl. rewrite Hc, Hr, Hn. simpl.
  split_and!; done.
Qed.

(** The provider answers at once; the citation of the answer is kept. *)
Lemma first_turn_text_answer_witness :
  res_text (Demo.run Demo.answers "What is your return policy?" 5).1
  = "You can return items within 30 days. [policy_returns_v1]"
  ∧ iterations
      (res_debug (Demo.run Demo.answers "What is your return policy?" 5).1)
    = 1%Z.
Proof.
  destruct (first_turn_text_answer (Demo.oracles Demo.answers) Demo.settings
              Demo.service "What is your return policy?" None None 6 5 0
              {| resp_content :=
                   Some "You can return items within 30 days. [policy_returns_v1]";
                 resp_tool_calls := None |}
              {| world := 1; tool_calls_made := []; tool_results := [];
                 calling_entered := 1 |})
    as (Htext & _ & _ & _ & Hiter & _).
  - lia.
  - reflexivity.
  - by left.
  - split; [exact Htext | exact Hiter].
Defined.

Lemma get_rag_context_bound {W : Type} (ext : Oracles W) (query : string)
    (top_k : Z) (w : W) :
  length (_get_rag_context ext query top_k w).1 ≤ 4.
Proof.
  unfold _get_rag_context.
  destruct (embed_query ext query w) as [[e|emb] w1]; simpl; [lia|].
  destruct (vector_search ext emb top_k w1) as [[e|results] w2]; simpl; [lia|].
  unfold dedup_context.
  destruct (dedup_walk_spec results ∅ []) as (k & _ & _ & -> & _ & _ & _ & Hk).
  - intros b. simpl. set_solver.
  - simpl. lia.
  - done.
Qed.

Lemma extract_citations_sound (text : string)
    (context_blocks : list ContextBlock) :
  NoDup (_extract_citations text context_blocks)
  ∧ _extract_citations text context_blocks ⊆ chunk_id <$> context_blocks.
Proof.
  unfold _extract_citations.
  destruct (unique_loop_spec
              (filter (λ cite, cite ∈ (list_to_set (chunk_id <$> context_blocks)
                                       : gset string))
                 (findall_citations text)) [])
    as (added & -> & Hnd & Hmem & _); [apply NoDup_nil_2|].
  simpl in *. split; [done|]. intros c Hc.
  apply Hmem in Hc as [Hc _]. apply list_elem_of_filter in Hc as [Hc _].
  by apply elem_of_list_to_set in Hc.
Qed.

(** X15. In every result of [process_query], on either exit:
    [debug.tools_called] lists the names of [tool_calls] in order;
    [debug.rag_chunk_ids] holds at most four ids and
    [debug.rag_context_used] is true exactly when it is not empty; the
    citations are pairwise distinct and all among
    [debug.rag_chunk_ids].  A result with [debug.error] reports no
    context and no citation even when context was retrieved; a result
    without it reports the ids of the blocks retrieved. *)
Theorem debug_fields_consistent {W : Type} (ext : Oracles W)
    (settings : Settings) (self : AgentService) (query : string)
    (chat_history : option (list ChatMessage)) (user_id : option string)
    (top_k max_iterations : Z) (w : W) :
  let res :=
    (process_query_run ext settings self query chat_history user_id top_k
       max_iterations w).1 in
  tools_called (res_debug res) = tool_name <$> res_tool_calls res
  ∧ length (rag_chunk_ids (res_debug res)) ≤ 4
  ∧ (rag_context_used (res_debug res) = true
     ↔ rag_chunk_ids (res_debug res) ≠ [])
  ∧ NoDup (res_citations res)
  ∧ res_citations res ⊆ rag_chunk_ids (res_debug res)
  ∧ match dbg_error (res_debug res) with
    | Some _ =>
        rag_chunk_ids (res_debug res) = [] ∧ res_citations res = []
    | None =>
        rag_chunk_ids (res_debug res)
        = chunk_id
          <$> (_get_rag_context ext query top_k (time_time ext w).2).1
    end.
Proof.
  intros res. subst res.
  destruct (process_query_run_unfold ext settings self query chat_history
              user_id top_k max_iterations w)
    as (start_time & w0 & rag & w1 & messages & w2 & r & st & now & w3
        & Hclock & Hrag & Hmsg & Hloop & Hnow & Hrun).
  rewrite Hrun, Hclock. simpl. rewrite Hrag. simpl.
  pose proof (get_rag_context_bound ext query top_k w0) as Hbound.
  rewrite Hrag in Hbound. simpl in Hbound.
  destruct r as [e|[iteration final]]; simpl.
  - split_and!; try done; [lia | apply NoDup_nil_2].
  - destruct (extract_citations_sound
                (PyStr.or_else final EmptyString) rag) as [Hnd Hsub].
    split_and!; try done.
    + by rewrite length_fmap.
    + rewrite bool_decide_eq_true. destruct rag; simpl; [|split; [done|lia]].
      split; [lia|done].
Qed.

(** The outcomes recorded so far answer the invocations recorded so far,
    except for at most one invocation at the end. *)
Lemma run_tool_calls_answered {W : Type} (ext : Oracles W)
    (calls : list ToolCall) (messages : list Message) (st : RunState W)
    (r : Exn + list Message) (st' : RunState W) :
  run_tool_calls ext calls messages st = (r, st') →
  Forall2 (answered ext) (tool_calls_made st) (tool_results st) →
  ∃ settled pending,
    tool_calls_made st' = settled ++ pending
    ∧ Forall2 (answered ext) settled (tool_results st')
    ∧ length pending ≤ 1
    ∧ (∀ v, r = inr v → pending = []).
Proof.
  revert messages st. induction calls as [|tool_call rest IH];
    intros messages st Hrun Hst.
  - injection Hrun as <- <-. exists (tool_calls_made st), [].
    rewrite app_nil_r. split_and!; try done. simpl. lia.
  - apply run_tool_calls_step in Hrun
      as [(e & -> & ->)|[(e & tool_args & -> & Hcalls & Hres)
                        |(kwargs & resp & w' & Hloads & Hexec & Hrun)]].
    + exists (tool_calls_made st), []. rewrite app_nil_r.
      split_and!; try done. simpl. lia.
    + exists (tool_calls_made st), [invocation_of tool_call tool_args].
      rewrite Hres. split_and!; done.
    + apply IH in Hrun; [done|]. simpl.
      apply Forall2_app; [done|]. constructor; [|constructor].
      by exists kwargs, (world st), w', resp.
Qed.

Lemma agent_loop_answered {W : Type} (ext : Oracles W) (settings : Settings)
    (self : AgentService) (fuel : nat) (max_iterations iteration : Z)
    (messages : list Message) (st : RunState W)
    (r : Exn + Z * option string) (st' : RunState W) :
  agent_loop ext settings self fuel max_iterations iteration messages st
  = (r, st') →
  Forall2 (answered ext) (tool_calls_made st) (tool_results st) →
  ∃ settled pending,
    tool_calls_made st' = settled ++ pending
    ∧ Forall2 (answered ext) settled (tool_results st')
    ∧ length pending ≤ 1
    ∧ (∀ v, r = inr v → pending = []).
Proof.
  revert iteration messages st.
  induction fuel as [|fuel IH]; intros iteration messages st Hrun Hst.
  - injection Hrun as <- <-. exists (tool_calls_made st), [].
    rewrite app_nil_r. split_and!; try done. simpl. lia.
  - rewrite agent_loop_S in Hrun.
    destruct (iteration <? max_iterations)%Z.
    2: { injection Hrun as <- <-. exists (tool_calls_made st), [].
         rewrite app_nil_r. split_and!; try done. simpl. lia. }
    apply bind_inv in Hrun
      as [(response & st1 & Hllm & Hrun)|(e & Hllm & ->)];
      apply call_llm_inv in Hllm as (_ & Hc & Hr).
    2: { exists (tool_calls_made st), []. rewrite app_nil_r, Hc, Hr.
         split_and!; try done. simpl. lia. }
    rewrite <- Hc, <- Hr in Hst.
    destruct (resp_tool_calls response) as [[|tc tcs]|].
    1,3: injection Hrun as <- <-; exists (tool_calls_made st1), [];
         rewrite app_nil_r; split_and!; try done; simpl; lia.
    apply bind_inv in Hrun
      as [(messages' & st2 & Htools & Hrun)|(e & Htools & ->)].
    + apply run_tool_calls_answered in Htools
        as (settled & pending & Hcalls & Hans & _ & Hnone); [|done].
      rewrite (Hnone _ eq_refl), app_nil_r in Hcalls.
      apply IH in Hrun; [done|]. by rewrite Hcalls.
    + apply run_tool_calls_answered in Htools
        as (settled & pending & Hcalls & Hans & Hlen & _); [|done].
      exists settled, pending. split_and!; done.
Qed.

(** X16. In every result of [process_query], on either exit, each entry
    of [tool_results] is what the registry answered to the entry of
    [tool_calls] at the same position: the invocation carries a mapping
    of arguments, the registry returned a response for its tool name
    and these arguments, and the outcome holds the ids of the invocation
    and the [success], [result] and [error] of that response.  At most
    one invocation, the last, is left without an outcome, and none on
    the normal return. *)
Theorem outcomes_are_registry_answers {W : Type} (ext : Oracles W)
    (settings : Settings) (self : AgentService) (query : string)
    (chat_history : option (list ChatMessage)) (user_id : option string)
    (top_k max_iterations : Z) (w : W) :
  let res :=
    (process_query_run ext settings self query chat_history user_id top_k
       max_iterations w).1 in
  ∃ settled pending,
    res_tool_calls res = settled ++ pending
    ∧ Forall2 (answered ext) settled (res_tool_results res)
    ∧ length pending ≤ 1
    ∧ (dbg_error (res_debug res) = None → pending = []).
Proof.
  intros res. subst res.
  destruct (process_query_run_unfold ext settings self query chat_history
              user_id top_k max_iterations w)
    as (start_time & w0 & rag & w1 & messages & w2 & r & st & now & w3
        & Hclock & Hrag & Hmsg & Hloop & Hnow & Hrun).
  rewrite Hrun. simpl.
  apply agent_loop_answered in Hloop
    as (settled & pending & Hcalls & Hans & Hlen & Hnone); [|constructor].
  exists settled, pending.
  destruct r as [e|[iteration final]]; simpl in *.
  - split_and!; done.
  - split_and!; try done. intros _. by apply (Hnone _ eq_refl).
Qed.
